(** * argo: registries that decode JSON payloads into registered variants

  A shallow embedding of the four registries of package [argo]
  ([TypeRegistry], [SyncTypeRegistry], [PropertyRegistry],
  [SyncPropertyRegistry]) together with the properties of their
  [Add], [Size] and [Unmarshal] methods.

  Conventions of the embedding:
  - a Go [string], a [[]byte] payload and a [json.RawMessage] are all
    byte sequences and are modelled by [string] (a list of 8-bit
    characters);
  - a Go [map[string]V] is a [gmap string V]; the [nil] map is [None];
  - a Go slice of strings is a [list string]; the [nil] slice and the
    empty slice are both [[]] (the code only uses [len], [append],
    [range], indexing and [strings.Join] on them, which do not tell them
    apart);
  - a method with a pointer receiver is a state-passing function that
    returns the registry it leaves behind; a method with a value receiver
    works on a private copy of the struct and returns only its result;
  - the read/write lock of the thread-safe registries has no effect on a
    sequential run and is left out of the state. *)

From Stdlib Require Import Ascii String.
From stdpp Require Import base option list strings gmap fin_maps.

(** ** Go's [strings] package *)

Module strings.

(** [cutset] holds only ASCII bytes at every call site of the package, in
    which case [strings.Trim] works byte by byte. *)
Fixpoint contains_byte (cutset : string) (c : ascii) : bool :=
  match cutset with
  | EmptyString => false
  | String a rest => if Ascii.eqb a c then true else contains_byte rest c
  end.

Fixpoint TrimLeft (s cutset : string) : string :=
  match s with
  | EmptyString => EmptyString
  | String a rest => if contains_byte cutset a then TrimLeft rest cutset else s
  end.

Fixpoint TrimRight (s cutset : string) : string :=
  match s with
  | EmptyString => EmptyString
  | String a rest =>
      match TrimRight rest cutset with
      | EmptyString => if contains_byte cutset a then EmptyString else String a EmptyString
      | kept => String a kept
      end
  end.

Definition Trim (s cutset : string) : string :=
  TrimLeft (TrimRight s cutset) cutset.

Fixpoint Join (elems : list string) (sep : string) : string :=
  match elems with
  | [] => EmptyString
  | [e] => e
  | e :: rest => e +:+ sep +:+ Join rest sep
  end.

End strings.

(** The double quote: the cut set that [Unmarshal] hands to [strings.Trim]. *)
Definition dquote : string := String "034"%char EmptyString.

(** [q s] is [s] between double quotes, the raw JSON text of a string
  without escapes. *)
Definition q (s : string) : string := dquote +:+ s +:+ dquote.


(** ** Go maps *)

(** [len(m)] and [m[k]] are defined on the [nil] map, which reads as the
  empty map. *)
Definition len_map {V} (m : option (gmap string V)) : nat :=
match m with
| None => 0
| Some m => size m
end.

Definition index_map {V} (m : option (gmap string V)) (k : string) : option V :=
match m with
| None => None
| Some m => m !! k
end.

(** A [for k := range m] loop over a map that the body does not modify
  visits every key once, in an order the language leaves open: every
  enumeration of the keys is a possible run. *)
Definition range_order {V} (m : gmap string V) (order : list string) : Prop :=
order ≡ₚ (map_to_list m).*1.

(** ** What the package takes from [encoding/json], [reflect] and [go-errors] *)

(** The registries are written against three libraries that are not part
  of the package. They enter the embedding as an interface:
  - [rtype] is [reflect.Type];
  - [instance] is the value behind the interface [T] that [Unmarshal]
    returns (a pointer to a freshly allocated struct);
  - [jerror] is an error as returned by [json.Unmarshal];
  - [json_Unmarshal_map payload] is [json.Unmarshal(payload, &guts)] for
    an empty [guts] of type [map[string]json.RawMessage];
  - [json_Unmarshal_new valueType data] is
    [value := reflect.New(valueType).Interface()] followed by
    [json.Unmarshal(data, value)], and yields [value] on success;
  - [errors_Is_JSONUnmarshalError err] is
    [errors.Is(err, errors.JSONUnmarshalError)];
  - [asserts_T valueType] tells whether the type assertion [value.(T)]
    holds for a value made by [reflect.New(valueType)]. *)
Class JSON (rtype instance jerror : Type) := {
json_Unmarshal_map : string → jerror + gmap string string;
json_Unmarshal_new : rtype → string → jerror + instance;
errors_Is_JSONUnmarshalError : jerror → bool;
asserts_T : rtype → bool;
}.

Section registries.
Context {rtype instance jerror : Type} `{!JSON rtype instance jerror}.

(** A [core.TypeCarrier] handed to [Add] is observed twice: through its
    method [GetType] and through [reflect.TypeOf]. *)
Record TypeCarrier := {
  GetType : string;
  TypeOf : rtype;
}.

(** The errors of [go-errors] that the package builds. *)
Inductive cause :=
| FromJSON (err : jerror)
| ArgumentMissing (what : string)
| InvalidType (what : string) (expected : list string).

Inductive error :=
| AsReturned (err : jerror)
| JSONUnmarshalError_Wrap (c : cause).

(** The outcome of a call of [Unmarshal]: [(object, nil)], [(null, err)],
    or a run-time panic. *)
Inductive result :=
| Ok (object : instance)
| Err (err : error)
| Panic.

(** The body of [if valueType, found := ...; found] in the tag-mode
    registries and of [if value, found := guts[property]; found] in the
    property-mode ones: allocate, decode [data], classify the error. *)
Definition new_and_decode (valueType : rtype) (data : string) : result :=
  match json_Unmarshal_new valueType data with
  | inl err =>
      if errors_Is_JSONUnmarshalError err then Err (AsReturned err)
      else Err (JSONUnmarshalError_Wrap (FromJSON err))
  | inr value =>
      if asserts_T valueType then Ok value else Panic
  end.

(** The loop of [Add], on the map and the slice it updates. *)
Definition add_class (acc : gmap string rtype * list string) (class : TypeCarrier)
  : gmap string rtype * list string :=
  let typename := GetType class in
  (<[typename := TypeOf class]> acc.1, acc.2 ++ [typename]).

End registries.

Arguments TypeCarrier : clear implicits.
Arguments cause : clear implicits.
Arguments error : clear implicits.
Arguments result : clear implicits.

(** ** TypeRegistry *)

Module TypeRegistry.
Section defs.
Context {rtype instance jerror : Type} `{!JSON rtype instance jerror}.

Record t := {
  Typetags : list string;
  registry : option (gmap string rtype);
  types : list string;
}.

(** [TypeRegistry[T]{}], the zero value the tests start from. *)
Definition zero : t :=
  {| Typetags := []; registry := None; types := [] |}.

Definition NewTypeRegistry (tags : list string) : t :=
  {| Typetags := tags; registry := Some ∅; types := [] |}.

Definition Size (r : t) : nat := len_map (registry r).

Definition Length (r : t) : nat := len_map (registry r).

Definition AddTypeTag (r : t) (tag : string) : t :=
  {| Typetags := Typetags r ++ [tag]; registry := registry r; types := types r |}.

Definition AddTypeTags (r : t) (tags : list string) : t :=
  {| Typetags := Typetags r ++ tags; registry := registry r; types := types r |}.

Definition Add (r : t) (classes : list (TypeCarrier rtype)) : t :=
  let m := match registry r with None => ∅ | Some m => m end in
  let acc := foldl add_class (m, types r) classes in
  {| Typetags := Typetags r; registry := Some acc.1; types := acc.2 |}.

Definition Append (r : t) (classes : list (TypeCarrier rtype)) : t := Add r classes.

(** [if len(registry.Typetags) == 0 { registry.Typetags = []string{"type"} }]:
    the tag names the rest of [Unmarshal] reads. *)
Definition default_Typetags (tags : list string) : list string :=
  if decide (length tags = 0) then ["type"] else tags.

(** [objectType := ""] and the loop over the tag names. *)
Definition scan_Typetags (guts : gmap string string) (tags : list string) : string :=
  foldl (λ objectType tag,
           match guts !! tag with
           | Some value => strings.Trim value dquote
           | None => objectType
           end) "" tags.

(** What the specification calls the last matching tag name in scan
    order: of the tag names that are fields of the payload, the one that
    comes last in [tags], with the raw value of that field. *)
Definition last_present (guts : gmap string string) (tags : list string)
  : option (string * string) :=
  last (omap (λ tag, (λ value, (tag, value)) <$> guts !! tag) tags).

(** From [if len(objectType) == 0] to the end of [Unmarshal]. *)
Definition dispatch (tags : list string) (catalog : option (gmap string rtype))
    (known : list string) (payload objectType : string) : result instance jerror :=
  if decide (String.length objectType = 0) then
    match tags with
    | first :: _ => Err (JSONUnmarshalError_Wrap (ArgumentMissing first))
    | [] => Panic
    end
  else
    match index_map catalog objectType with
    | Some valueType => new_and_decode valueType payload
    | None => Err (JSONUnmarshalError_Wrap (InvalidType objectType known))
    end.

(** The receiver is a value: the assignment to [Typetags] changes the
    method's own copy of the struct, which [tags] stands for. *)
Definition Unmarshal (r : t) (payload : string) : result instance jerror :=
  let tags := default_Typetags (Typetags r) in
  match json_Unmarshal_map payload with
  | inl err => Err (JSONUnmarshalError_Wrap (FromJSON err))
  | inr guts =>
      let objectType := scan_Typetags guts tags in
      dispatch tags (registry r) (types r) payload objectType
  end.

(** The registries a client of the package can hold: the fields
    [registry] and [types] are private, [Typetags] is exported and can be
    assigned at will. *)
Inductive reachable : t → Prop :=
| reachable_zero : reachable zero
| reachable_New tags : reachable (NewTypeRegistry tags)
| reachable_Add r classes : reachable r → reachable (Add r classes)
| reachable_Typetags r tags :
    reachable r →
    reachable {| Typetags := tags; registry := registry r; types := types r |}.

End defs.

Arguments t : clear implicits.

End TypeRegistry.

(** ** SyncTypeRegistry *)

(** [SyncTypeRegistry[T]] has the three fields of [TypeRegistry[T]] and a
  lock; with the lock left out its state is a [TypeRegistry.t]. Every
  method has a pointer receiver. *)
Module SyncTypeRegistry.
Section defs.
Context {rtype instance jerror : Type} `{!JSON rtype instance jerror}.

#[local] Abbreviation t := (TypeRegistry.t rtype).
#[local] Abbreviation Typetags := TypeRegistry.Typetags.
#[local] Abbreviation registry := TypeRegistry.registry.
#[local] Abbreviation types := TypeRegistry.types.

Definition NewSyncTypeRegistry (tags : list string) : t :=
  {| Typetags := tags; registry := Some ∅; types := [] |}.

Definition Size (r : t) : nat := len_map (registry r).

Definition Length (r : t) : nat := len_map (registry r).

Definition AddTypeTag (r : t) (tag : string) : t :=
  {| Typetags := Typetags r ++ [tag]; registry := registry r; types := types r |}.

Definition AddTypeTags (r : t) (tags : list string) : t :=
  {| Typetags := Typetags r ++ tags; registry := registry r; types := types r |}.

Definition Add (r : t) (classes : list (TypeCarrier rtype)) : t :=
  let m := match registry r with None => ∅ | Some m => m end in
  let acc := foldl add_class (m, types r) classes in
  {| Typetags := Typetags r; registry := Some acc.1; types := acc.2 |}.

Definition Append (r : t) (classes : list (TypeCarrier rtype)) : t := Add r classes.

(** The receiver is a pointer: the assignment to [Typetags] is a write to
    the registry itself, and the registry after the call is part of what
    the call returns. From [objectType := ""] on, the statements are
    those of [TypeRegistry.Unmarshal]. *)
Definition Unmarshal (r : t) (payload : string) : t * result instance jerror :=
  let r :=
    if decide (length (Typetags r) = 0)
    then {| Typetags := ["type"]; registry := registry r; types := types r |}
    else r in
  match json_Unmarshal_map payload with
  | inl err => (r, Err (JSONUnmarshalError_Wrap (FromJSON err)))
  | inr guts =>
      let objectType := TypeRegistry.scan_Typetags guts (Typetags r) in
      (r, TypeRegistry.dispatch (Typetags r) (registry r) (types r) payload objectType)
  end.

End defs.
End SyncTypeRegistry.

(** ** PropertyRegistry *)

Module PropertyRegistry.
Section defs.
Context {rtype instance jerror : Type} `{!JSON rtype instance jerror}.

Record t := {
  registry : option (gmap string rtype);
  types : list string;
}.

Definition zero : t := {| registry := None; types := [] |}.

(** The constructor accepts tag names and ignores them. *)
Definition NewPropertyRegistry (tags : list string) : t :=
  {| registry := Some ∅; types := [] |}.

Definition Size (r : t) : nat := len_map (registry r).

Definition Length (r : t) : nat := len_map (registry r).

Definition Add (r : t) (classes : list (TypeCarrier rtype)) : t :=
  let m := match registry r with None => ∅ | Some m => m end in
  let acc := foldl add_class (m, types r) classes in
  {| registry := Some acc.1; types := acc.2 |}.

Definition Append (r : t) (classes : list (TypeCarrier rtype)) : t := Add r classes.

(** The loop [for property := range guts] along one enumeration [order]
    of the keys, and the [return] that follows it. *)
Fixpoint range_guts (catalog : option (gmap string rtype)) (known : list string)
    (guts : gmap string string) (order : list string) : result instance jerror :=
  match order with
  | [] => Err (JSONUnmarshalError_Wrap (ArgumentMissing (strings.Join known ", ")))
  | property :: rest =>
      match index_map catalog property with
      | None => range_guts catalog known guts rest
      | Some valueType =>
          match guts !! property with
          | Some value => new_and_decode valueType value
          | None => range_guts catalog known guts rest
          end
      end
  end.

(** A call of [Unmarshal] and a result it can return. *)
Inductive Unmarshal (r : t) (payload : string) : result instance jerror → Prop :=
| Unmarshal_malformed err :
    json_Unmarshal_map payload = inl err →
    Unmarshal r payload (Err (JSONUnmarshalError_Wrap (FromJSON err)))
| Unmarshal_range guts order :
    json_Unmarshal_map payload = inr guts →
    range_order guts order →
    Unmarshal r payload (range_guts (registry r) (types r) guts order).

End defs.

Arguments t : clear implicits.

End PropertyRegistry.

(** ** SyncPropertyRegistry *)

(** The state is that of [PropertyRegistry[T]] (the lock is left out);
  every method has a pointer receiver. *)
Module SyncPropertyRegistry.
Section defs.
Context {rtype instance jerror : Type} `{!JSON rtype instance jerror}.

#[local] Abbreviation t := (PropertyRegistry.t rtype).
#[local] Abbreviation registry := PropertyRegistry.registry.
#[local] Abbreviation types := PropertyRegistry.types.

Definition NewSyncPropertyRegistry (tags : list string) : t :=
  {| registry := Some ∅; types := [] |}.

Definition Size (r : t) : nat := len_map (registry r).

Definition Length (r : t) : nat := len_map (registry r).

Definition Add (r : t) (classes : list (TypeCarrier rtype)) : t :=
  let m := match registry r with None => ∅ | Some m => m end in
  let acc := foldl add_class (m, types r) classes in
  {| registry := Some acc.1; types := acc.2 |}.

Definition Append (r : t) (classes : list (TypeCarrier rtype)) : t := Add r classes.

(** [Unmarshal] assigns to no field: the registry it leaves behind is the
    one it was called on. The loop is the one of
    [PropertyRegistry.Unmarshal]. *)
Inductive Unmarshal (r : t) (payload : string) : t * result instance jerror → Prop :=
| Unmarshal_malformed err :
    json_Unmarshal_map payload = inl err →
    Unmarshal r payload (r, Err (JSONUnmarshalError_Wrap (FromJSON err)))
| Unmarshal_range guts order :
    json_Unmarshal_map payload = inr guts →
    range_order guts order →
    Unmarshal r payload
      (r, PropertyRegistry.range_guts (registry r) (types r) guts order).

End defs.
End SyncPropertyRegistry.

(** ** The generic helper of [wrappers.go] *)

Module wrappers.
Section defs.
Context {rtype instance jerror : Type} `{!JSON rtype instance jerror}.

(** [Unmarshal[T]](payload) for the type [T] that [valueType] reflects.
    [json.Unmarshal(payload, &object)] decodes into a zero value of [T],
    as [json_Unmarshal_new] does into the value made by [reflect.New]. An
    error that is already a [JSONUnmarshalError] is returned as it is;
    every other one goes through [JSONUnmarshalError.Wrap], which gives
    [nil] for [nil], so that a decoding without error returns no error
    (the test [TestCanUnmarshal]). The object that comes with an error is
    not part of the result. *)
Definition Unmarshal (valueType : rtype) (payload : string) : result instance jerror :=
  match json_Unmarshal_new valueType payload with
  | inl err =>
      if errors_Is_JSONUnmarshalError err then Err (AsReturned err)
      else Err (JSONUnmarshalError_Wrap (FromJSON err))
  | inr object => Ok object
  end.

End defs.
End wrappers.

(** ** Property-mode registries built through the package *)

Section built.
Context {rtype instance jerror : Type} `{!JSON rtype instance jerror}.

(** Both fields of a property-mode registry are private: a client holds
    the zero value, the result of a constructor, or what [Add] made of
    one of these. *)
Inductive PropertyRegistry_reachable : PropertyRegistry.t rtype → Prop :=
| property_reachable_zero : PropertyRegistry_reachable PropertyRegistry.zero
| property_reachable_New tags :
    PropertyRegistry_reachable (PropertyRegistry.NewPropertyRegistry tags)
| property_reachable_Add r classes :
    PropertyRegistry_reachable r →
    PropertyRegistry_reachable (PropertyRegistry.Add r classes).

End built.

(** ** The types of the test suite *)

(** [common_test.go] declares the carriers the tests register. They give
    the interface [JSON] an instance on which the registries can be run:
    [Something1] and [Something2], a reader for the JSON the test payloads
    are written in, and the decoding of the two structs. *)
Module common_test.

Inductive rtype := Something1 | Something2.

(** A pointer to a freshly decoded struct, with its field [Data]. *)
Inductive instance :=
| ptr_Something1 (Data : string)
| ptr_Something2 (Data : string).

(** [ArgumentInvalid what value] is the error that
    [Something1.UnmarshalJSON] builds with
    [errors.JSONUnmarshalError.Wrap(errors.ArgumentInvalid.With(what, value))]. *)
Inductive jerror :=
| SyntaxError
| UnmarshalTypeError (field : string)
| ArgumentInvalid (what value : string).

(** [expect c s] is what follows the byte [c] at the head of [s]. *)
Definition expect (c : ascii) (s : string) : option string :=
  match s with
  | String a rest => if Ascii.eqb a c then Some rest else None
  | EmptyString => None
  end.

Definition is_space (c : ascii) : bool :=
  bool_decide (c ∈ [" "; "009"; "010"; "013"]%char).

Fixpoint skip_space (s : string) : string :=
  match s with
  | String c rest => if is_space c then skip_space rest else s
  | EmptyString => s
  end.

(** The text of a string after its opening quote: its content and what
    follows the closing quote. Escapes are outside the fragment. *)
Fixpoint read_string (s : string) : option (string * string) :=
  match s with
  | EmptyString => None
  | String c rest =>
      if bool_decide (c = "034"%char) then Some (EmptyString, rest)
      else if bool_decide (c = "\"%char) then None
      else '(body, rest') ← read_string rest; Some (String c body, rest')
  end.

(** An object or an array after its opening bracket, up to the bracket
    that closes it; nested values are only checked for balance. *)
Fixpoint read_nested (depth : nat) (in_string : bool) (s : string)
  : option (string * string) :=
  match s with
  | EmptyString => None
  | String c rest =>
      let continue depth in_string :=
        '(raw, rest') ← read_nested depth in_string rest;
        Some (String c raw, rest') in
      if in_string then
        if bool_decide (c = "034"%char) then continue depth false
        else if bool_decide (c = "\"%char) then None
        else continue depth true
      else if bool_decide (c = "034"%char) then continue depth true
      else if bool_decide (c ∈ ["{"; "["]%char) then continue (S depth) false
      else if bool_decide (c ∈ ["}"; "]"]%char) then
        match depth with
        | 0 => Some (String c EmptyString, rest)
        | S depth => continue depth false
        end
      else continue depth false
  end.

Definition is_delimiter (c : ascii) : bool :=
  is_space c || bool_decide (c ∈ [","; "}"; "]"; ":"; "034"]%char).

Fixpoint read_literal (s : string) : string * string :=
  match s with
  | EmptyString => (EmptyString, EmptyString)
  | String c rest =>
      if is_delimiter c then (EmptyString, s)
      else let '(lit, rest') := read_literal rest in (String c lit, rest')
  end.

Definition is_digit (c : ascii) : bool :=
  bool_decide (c ∈ ["0"; "1"; "2"; "3"; "4"; "5"; "6"; "7"; "8"; "9"]%char).

Fixpoint all_digits (s : string) : bool :=
  match s with
  | EmptyString => true
  | String c rest => is_digit c && all_digits rest
  end.

(** Integers are the only numbers of the fragment. *)
Definition is_integer (s : string) : bool :=
  let digits := default s (expect "-" s) in
  match expect "0" digits with
  | Some rest => bool_decide (rest = EmptyString)
  | None => bool_decide (digits ≠ EmptyString) && all_digits digits
  end.

Definition is_literal (s : string) : bool :=
  bool_decide (s ∈ ["true"; "false"; "null"]) || is_integer s.

(** The raw text of the value [s] starts with, and what follows it. *)
Definition read_value (s : string) : option (string * string) :=
  match s with
  | EmptyString => None
  | String c rest =>
      if bool_decide (c = "034"%char) then
        '(body, rest') ← read_string rest; Some (q body, rest')
      else if bool_decide (c ∈ ["{"; "["]%char) then
        '(raw, rest') ← read_nested 0 false rest; Some (String c raw, rest')
      else
        let '(lit, rest') := read_literal s in
        if is_literal lit then Some (lit, rest') else None
  end.

(** The members of an object, from the first key to the closing brace. A
    key that occurs twice keeps its last value. Each member consumes at
    least one byte, so the length of the payload is fuel enough. *)
Fixpoint read_members (fuel : nat) (s : string) (guts : gmap string string)
  : option (gmap string string * string) :=
  match fuel with
  | 0 => None
  | S fuel =>
      rest ← expect "034" (skip_space s);
      '(key, rest) ← read_string rest;
      rest ← expect ":" (skip_space rest);
      '(raw, rest) ← read_value (skip_space rest);
      let guts := <[key := raw]> guts in
      match expect "," (skip_space rest) with
      | Some rest => read_members fuel rest guts
      | None => rest ← expect "}" (skip_space rest); Some (guts, rest)
      end
  end.

Definition read_object (payload : string) : option (gmap string string) :=
  rest ← expect "{" (skip_space payload);
  '(guts, rest) ←
    match expect "}" (skip_space rest) with
    | Some rest => Some (∅, rest)
    | None => read_members (String.length payload) rest ∅
    end;
  if bool_decide (skip_space rest = EmptyString) then Some guts else None.

Definition unquote (raw : string) : option string :=
  rest ← expect "034" raw;
  '(body, rest) ← read_string rest;
  if bool_decide (rest = EmptyString) then Some body else None.

(** Decoding into a struct whose only field is [Data string `json:"data"`]:
    other members are ignored, a missing or [null] member leaves the zero
    value. *)
Definition decode_Data (data : string) : jerror + string :=
  match read_object data with
  | None => inl SyntaxError
  | Some guts =>
      match guts !! "data" with
      | None => inr EmptyString
      | Some raw =>
          if bool_decide (raw = "null") then inr EmptyString
          else match unquote raw with
               | Some body => inr body
               | None => inl (UnmarshalTypeError "data")
               end
      end
  end.

(** [Something1] has its own [UnmarshalJSON], which accepts no other
    [Data] than the string [data]. *)
Definition decode (valueType : rtype) (data : string) : jerror + instance :=
  match decode_Data data with
  | inl err => inl err
  | inr Data =>
      match valueType with
      | Something1 =>
          if bool_decide (Data ≠ "data") then inl (ArgumentInvalid "data" Data)
          else inr (ptr_Something1 Data)
      | Something2 => inr (ptr_Something2 Data)
      end
  end.

Definition is_JSONUnmarshalError (err : jerror) : bool :=
  match err with
  | ArgumentInvalid _ _ => true
  | _ => false
  end.

(** The tests instantiate the registries at the interface [Something],
    which [*Something1] and [*Something2] both implement. *)
Definition json : JSON rtype instance jerror := {|
  json_Unmarshal_map payload :=
    match read_object payload with
    | Some guts => inr guts
    | None => inl SyntaxError
    end;
  json_Unmarshal_new := decode;
  errors_Is_JSONUnmarshalError := is_JSONUnmarshalError;
  asserts_T _ := true;
|}.

Definition something1 : TypeCarrier rtype :=
  {| GetType := "something1"; TypeOf := Something1 |}.

Definition something2 : TypeCarrier rtype :=
  {| GetType := "something2"; TypeOf := Something2 |}.

(** *** The registries and payloads of the tests *)

Definition member (name raw : string) : string := q name +:+ ": " +:+ raw.

Definition object (members : list string) : string :=
  "{" +:+ strings.Join members ", " +:+ "}".

(** The payloads of [type_registry_test.go] that carry a discriminant or
    lack one. *)
Definition payload_something1 : string :=
  object [member "type" (q "something1"); member "data" (q "data")].

Definition payload_typetag : string :=
  object [member "__type" (q "something1"); member "data" (q "data")].

Definition payload_without_type : string :=
  object [member "data" (q "data")].

Definition payload_something3 : string :=
  object [member "type" (q "something3"); member "data" (q "data")].

(** Payloads the tests do not have: both tag names at once, a tag whose
    value is the empty string, and an unregistered discriminant followed
    by an empty one. *)
Definition payload_two_tags : string :=
  object [member "type" (q "something1"); member "__type" (q "something2");
          member "data" (q "data")].

Definition payload_empty_type : string :=
  object [member "type" (q ""); member "data" (q "data")].

Definition payload_empty_second_tag : string :=
  object [member "type" (q "something3"); member "__type" (q "");
          member "data" (q "data")].

(** The payloads the tests expect to be rejected: a stray quote after the
    number, a number for [data], and a [data] that [Something1] refuses. *)
Definition payload_invalid_json : string :=
  object [member "type" ("3" +:+ dquote); member "data" (q "data")].

Definition payload_data_number : string :=
  object [member "type" (q "something1"); member "data" "2"].

Definition payload_data_else : string :=
  object [member "type" (q "something1"); member "data" (q "else")].

(** The payloads of [property_registry_test.go], one with two fields that
    are both registered, and one with a field that is and one that is not
    (the test payloads are written without white space). *)
Definition property_something2 : string :=
  object [member "something2" (object [member "data" (q "data")])].

Definition property_something3 : string :=
  object [member "something3" (object [member "data" (q "data")])].

Definition property_both : string :=
  object [member "something1" (object [member "data" (q "data")]);
          member "something2" (object [member "data" (q "data")])].

Definition property_something2_versioned : string :=
  object [member "something2" (object [member "data" (q "data")]);
          member "version" "1"].

(** The fields of a payload of the fragment. *)
Definition guts_of (payload : string) : gmap string string :=
  default ∅ (read_object payload).

(** [argo.NewTypeRegistry[Something](tags...).Add(Something1{}).Append(Something2{})] *)
Definition type_registry (tags : list string) : TypeRegistry.t rtype :=
  TypeRegistry.Append (TypeRegistry.Add (TypeRegistry.NewTypeRegistry tags) [something1])
    [something2].

Definition sync_type_registry (tags : list string) : TypeRegistry.t rtype :=
  SyncTypeRegistry.Append
    (SyncTypeRegistry.Add (SyncTypeRegistry.NewSyncTypeRegistry tags) [something1])
    [something2].

(** [argo.NewPropertyRegistry[Something]().Add(Something1{}).Append(Something2{})] *)
Definition property_registry : PropertyRegistry.t rtype :=
  PropertyRegistry.Append
    (PropertyRegistry.Add (PropertyRegistry.NewPropertyRegistry []) [something1])
    [something2].

End common_test.

(** * Properties *)

Section properties.
Context {rtype instance jerror : Type} `{!JSON rtype instance jerror}.

(** ** The catalog: [Add] and [Size] *)

Lemma foldl_add_class_types (classes : list (TypeCarrier rtype)) acc :
  (foldl add_class acc classes).2 = acc.2 ++ (GetType <$> classes).
Proof.
  revert acc. induction classes as [|class classes IH]; intros acc; simpl.
  - by rewrite app_nil_r.
  - rewrite IH. simpl. by rewrite <- app_assoc.
Qed.

Lemma foldl_add_class_consistent (classes : list (TypeCarrier rtype)) acc :
  (∀ d, d ∈ acc.2 ↔ is_Some (acc.1 !! d)) →
  ∀ d, d ∈ (foldl add_class acc classes).2
       ↔ is_Some ((foldl add_class acc classes).1 !! d).
Proof.
  revert acc. induction classes as [|class classes IH]; intros acc Hc; simpl.
  - done.
  - apply IH. intros d. simpl. rewrite elem_of_app, list_elem_of_singleton, Hc.
    destruct (decide (GetType class = d)) as [->|Hne].
    + rewrite lookup_insert_eq. split; [by eexists | by right].
    + rewrite lookup_insert_ne by done. split; [by intros [?|?] | by left].
Qed.

Lemma TypeRegistry_reachable_consistent (r : TypeRegistry.t rtype) :
  TypeRegistry.reachable r →
  ∀ d, d ∈ TypeRegistry.types r ↔ is_Some (index_map (TypeRegistry.registry r) d).
Proof.
  induction 1 as [| tags | r classes _ IH | r tags _ IH]; simpl; intros d.
  - split; [by intros ?%elem_of_nil | by intros [? ?]].
  - rewrite lookup_empty. split; [by intros ?%elem_of_nil | by intros [? ?]].
  - apply foldl_add_class_consistent. intros d'. rewrite IH.
    by destruct (TypeRegistry.registry r).
  - apply IH.
Qed.

Lemma SyncTypeRegistry_Add_eq (r : TypeRegistry.t rtype) classes :
  SyncTypeRegistry.Add r classes = TypeRegistry.Add r classes.
Proof. reflexivity. Qed.

Lemma SyncPropertyRegistry_Add_eq (r : PropertyRegistry.t rtype) classes :
  SyncPropertyRegistry.Add r classes = PropertyRegistry.Add r classes.
Proof. reflexivity. Qed.

(** Adding one carrier whose discriminant is already a key of the map. *)
Lemma add_class_again (m : gmap string rtype) ts (class : TypeCarrier rtype) :
  is_Some (m !! GetType class) →
  let acc := foldl add_class (m, ts) [class] in
  size acc.1 = size m ∧ acc.1 !! GetType class = Some (TypeOf class)
  ∧ acc.2 = ts ++ [GetType class].
Proof.
  intros [old Hold]; simpl. split_and!; [|by rewrite lookup_insert_eq|done].
  rewrite <- (insert_id m _ _ Hold) at 2.
  rewrite <- (insert_delete_eq m), <- (insert_delete_eq m (GetType class) old).
  by rewrite !map_size_insert_None by apply lookup_delete_eq.
Qed.

(** ** Tag mode: the scan of the tag names *)

Lemma scan_Typetags_snoc guts tags tag :
  TypeRegistry.scan_Typetags guts (tags ++ [tag]) =
  match guts !! tag with
  | Some value => strings.Trim value dquote
  | None => TypeRegistry.scan_Typetags guts tags
  end.
Proof. unfold TypeRegistry.scan_Typetags. by rewrite foldl_snoc. Qed.

Lemma last_present_snoc guts tags tag :
  TypeRegistry.last_present guts (tags ++ [tag]) =
  match guts !! tag with
  | Some value => Some (tag, value)
  | None => TypeRegistry.last_present guts tags
  end.
Proof.
  unfold TypeRegistry.last_present. rewrite omap_app; simpl.
  destruct (guts !! tag); simpl.
  - by rewrite last_snoc.
  - by rewrite app_nil_r.
Qed.

(** The loop computes the discriminant from the last tag name present. *)
Lemma scan_Typetags_last_present guts tags :
  TypeRegistry.scan_Typetags guts tags =
  match TypeRegistry.last_present guts tags with
  | Some (_, value) => strings.Trim value dquote
  | None => EmptyString
  end.
Proof.
  induction tags as [|tag tags IH] using rev_ind; [done|].
  rewrite scan_Typetags_snoc, last_present_snoc.
  by destruct (guts !! tag).
Qed.

Lemma last_present_None guts tags :
  TypeRegistry.last_present guts tags = None ↔ ∀ tag, tag ∈ tags → guts !! tag = None.
Proof.
  induction tags as [|tag tags IH] using rev_ind.
  - split; [by intros _ ? ?%elem_of_nil | done].
  - rewrite last_present_snoc. setoid_rewrite elem_of_app.
    setoid_rewrite list_elem_of_singleton.
    destruct (guts !! tag) eqn:Htag.
    + split; [done|]. intros Hall. specialize (Hall tag (or_intror eq_refl)). congruence.
    + rewrite IH. split.
      * intros Hall t [?| ->]; auto.
      * intros Hall t Hin. apply Hall. by left.
Qed.

Lemma last_present_Some guts tags tag value :
  TypeRegistry.last_present guts tags = Some (tag, value) ↔
  ∃ before after, tags = before ++ tag :: after ∧ guts !! tag = Some value
                  ∧ ∀ later, later ∈ after → guts !! later = None.
Proof.
  induction tags as [|t tags IH] using rev_ind.
  - split; [done|]. intros (before & after & Heq & _). by destruct before.
  - rewrite last_present_snoc. destruct (guts !! t) eqn:Ht.
    + split.
      * intros [= <- <-]. exists tags, []. split_and!; [done..|].
        by intros ? ?%elem_of_nil.
      * intros (before & after & Heq & Hv & Hafter).
        destruct after as [|a after _] using rev_ind.
        -- apply app_inj_tail in Heq as [_ ->]. congruence.
        -- rewrite app_comm_cons, app_assoc in Heq.
           apply app_inj_tail in Heq as [_ ->].
           rewrite Hafter in Ht; [done|]. rewrite elem_of_app, list_elem_of_singleton. by right.
    + rewrite IH. split.
      * intros (before & after & -> & Hv & Hafter).
        exists before, (after ++ [t]). rewrite <- app_assoc. split_and!; [done..|].
        intros later [?| ->%list_elem_of_singleton]%elem_of_app; auto.
      * intros (before & after & Heq & Hv & Hafter).
        destruct after as [|a after _] using rev_ind.
        -- apply app_inj_tail in Heq as [_ ->]. congruence.
        -- rewrite app_comm_cons, app_assoc in Heq.
           apply app_inj_tail in Heq as [-> ->].
           exists before, after. split_and!; [done..|].
           intros later Hin. apply Hafter. rewrite elem_of_app. by left.
Qed.

(** ** Tag mode: the two registries return the same result *)

Lemma SyncTypeRegistry_Unmarshal_state (r : TypeRegistry.t rtype) payload :
  (SyncTypeRegistry.Unmarshal r payload).1 =
  {| TypeRegistry.Typetags := TypeRegistry.default_Typetags (TypeRegistry.Typetags r);
     TypeRegistry.registry := TypeRegistry.registry r;
     TypeRegistry.types := TypeRegistry.types r |}.
Proof.
  unfold SyncTypeRegistry.Unmarshal, TypeRegistry.default_Typetags.
  destruct r as [tags m ts]; simpl.
  by destruct (decide (length tags = 0)), (json_Unmarshal_map payload).
Qed.

Lemma SyncTypeRegistry_Unmarshal_result (r : TypeRegistry.t rtype) payload :
  (SyncTypeRegistry.Unmarshal r payload).2 = TypeRegistry.Unmarshal r payload.
Proof.
  unfold SyncTypeRegistry.Unmarshal, TypeRegistry.Unmarshal, TypeRegistry.default_Typetags.
  destruct r as [tags m ts]; simpl.
  by destruct (decide (length tags = 0)), (json_Unmarshal_map payload).
Qed.

(** With a tag name configured, [SyncTypeRegistry.Unmarshal] writes to no
    field. *)
Lemma SyncTypeRegistry_Unmarshal_frame (r : TypeRegistry.t rtype) payload :
  TypeRegistry.Typetags r ≠ [] → (SyncTypeRegistry.Unmarshal r payload).1 = r.
Proof.
  intros Hsome. rewrite SyncTypeRegistry_Unmarshal_state.
  unfold TypeRegistry.default_Typetags. destruct r as [[|tag tags] m ts]; simpl; done.
Qed.

Lemma TypeRegistry_reachable_AddTypeTags (r : TypeRegistry.t rtype) tags :
  TypeRegistry.reachable r → TypeRegistry.reachable (TypeRegistry.AddTypeTags r tags).
Proof. apply TypeRegistry.reachable_Typetags. Qed.

Lemma SyncTypeRegistry_reachable_Unmarshal (r : TypeRegistry.t rtype) payload :
  TypeRegistry.reachable r →
  TypeRegistry.reachable (SyncTypeRegistry.Unmarshal r payload).1.
Proof.
  intros Hr. rewrite SyncTypeRegistry_Unmarshal_state.
  by apply TypeRegistry.reachable_Typetags.
Qed.

Lemma default_Typetags_head tags :
  head (TypeRegistry.default_Typetags tags) = Some (default "type" (head tags)).
Proof.
  unfold TypeRegistry.default_Typetags. by destruct tags.
Qed.

(** The result of tag-mode [Unmarshal] on a payload that parses, in terms
    of the last tag name present. *)
Lemma TypeRegistry_Unmarshal_parsed (r : TypeRegistry.t rtype) payload guts :
  json_Unmarshal_map payload = inr guts →
  TypeRegistry.Unmarshal r payload =
  TypeRegistry.dispatch (TypeRegistry.default_Typetags (TypeRegistry.Typetags r))
    (TypeRegistry.registry r) (TypeRegistry.types r) payload
    match TypeRegistry.last_present guts
            (TypeRegistry.default_Typetags (TypeRegistry.Typetags r)) with
    | Some (_, value) => strings.Trim value dquote
    | None => EmptyString
    end.
Proof.
  intros Hguts. unfold TypeRegistry.Unmarshal. rewrite Hguts.
  by rewrite scan_Typetags_last_present.
Qed.

Lemma dispatch_empty tags catalog known payload :
  TypeRegistry.dispatch (TypeRegistry.default_Typetags tags) catalog known payload EmptyString
  = Err (JSONUnmarshalError_Wrap (ArgumentMissing (default "type" (head tags)))).
Proof. unfold TypeRegistry.dispatch, TypeRegistry.default_Typetags. by destruct tags. Qed.

Lemma dispatch_nonempty tags catalog known payload objectType :
  objectType ≠ EmptyString →
  TypeRegistry.dispatch tags catalog known payload objectType =
  match index_map catalog objectType with
  | Some valueType => new_and_decode valueType payload
  | None => Err (JSONUnmarshalError_Wrap (InvalidType objectType known))
  end.
Proof.
  intros Hne. unfold TypeRegistry.dispatch.
  destruct (decide (String.length objectType = 0)) as [Hlen|]; [|done].
  by destruct objectType.
Qed.

(** ** Tag mode: the claims *)

(** C1. Tag-mode [Unmarshal] scans the configured tag names in their order,
    and when several of them are fields of the payload the last one in scan
    order supplies the discriminant: whatever the tag names before it
    matched is overwritten. Here [tag] is the last configured tag name
    present in [guts] and [value] its raw value; the scan returns [value]
    without its quotes and both registries go on with that discriminant. *)
Theorem tag_last_match_wins (r : TypeRegistry.t rtype) payload guts tag value :
  json_Unmarshal_map payload = inr guts →
  TypeRegistry.last_present guts
    (TypeRegistry.default_Typetags (TypeRegistry.Typetags r)) = Some (tag, value) →
  let tags := TypeRegistry.default_Typetags (TypeRegistry.Typetags r) in
  let continue :=
    TypeRegistry.dispatch tags (TypeRegistry.registry r) (TypeRegistry.types r)
      payload (strings.Trim value dquote) in
  (∃ before after, tags = before ++ tag :: after ∧ guts !! tag = Some value
                   ∧ ∀ later, later ∈ after → guts !! later = None)
  ∧ TypeRegistry.scan_Typetags guts tags = strings.Trim value dquote
  ∧ TypeRegistry.Unmarshal r payload = continue
  ∧ (SyncTypeRegistry.Unmarshal r payload).2 = continue.
Proof.
  intros Hguts Hlast tags continue. split_and!.
  - by apply last_present_Some.
  - rewrite scan_Typetags_last_present. fold tags in Hlast. by rewrite Hlast.
  - rewrite (TypeRegistry_Unmarshal_parsed _ _ _ Hguts). by rewrite Hlast.
  - rewrite SyncTypeRegistry_Unmarshal_result.
    rewrite (TypeRegistry_Unmarshal_parsed _ _ _ Hguts). by rewrite Hlast.
Qed.

(** C8. In tag mode, when the payload parses and none of the configured
    tag names is one of its fields, [Unmarshal] returns the error
    [ArgumentMissing] (missing discriminant) for the first configured tag
    name, which is [type] when no tag name is configured. *)
Theorem tag_missing_discriminant (r : TypeRegistry.t rtype) payload guts :
  json_Unmarshal_map payload = inr guts →
  (∀ tag, tag ∈ TypeRegistry.default_Typetags (TypeRegistry.Typetags r) →
          guts !! tag = None) →
  let first := default "type" (head (TypeRegistry.Typetags r)) in
  head (TypeRegistry.default_Typetags (TypeRegistry.Typetags r)) = Some first
  ∧ TypeRegistry.Unmarshal r payload
    = Err (JSONUnmarshalError_Wrap (ArgumentMissing first))
  ∧ (SyncTypeRegistry.Unmarshal r payload).2
    = Err (JSONUnmarshalError_Wrap (ArgumentMissing first)).
Proof.
  intros Hguts Habsent first.
  apply last_present_None in Habsent.
  rewrite SyncTypeRegistry_Unmarshal_result.
  rewrite (TypeRegistry_Unmarshal_parsed _ _ _ Hguts), Habsent, dispatch_empty.
  split_and!; [apply default_Typetags_head | done..].
Qed.

(** C10. In tag mode, when the last configured tag name present in the
    payload has a raw value that is empty once its double quotes are
    stripped, [Unmarshal] answers as if no discriminant were there: it
    returns [ArgumentMissing] for the first configured tag name, and so
    never [InvalidType] (unknown discriminant). *)
Theorem tag_empty_value_missing (r : TypeRegistry.t rtype) payload guts tag value :
  json_Unmarshal_map payload = inr guts →
  TypeRegistry.last_present guts
    (TypeRegistry.default_Typetags (TypeRegistry.Typetags r)) = Some (tag, value) →
  strings.Trim value dquote = EmptyString →
  let first := default "type" (head (TypeRegistry.Typetags r)) in
  TypeRegistry.Unmarshal r payload
    = Err (JSONUnmarshalError_Wrap (ArgumentMissing first))
  ∧ (SyncTypeRegistry.Unmarshal r payload).2
    = Err (JSONUnmarshalError_Wrap (ArgumentMissing first))
  ∧ ∀ what known,
      TypeRegistry.Unmarshal r payload
        ≠ Err (JSONUnmarshalError_Wrap (InvalidType what known))
      ∧ (SyncTypeRegistry.Unmarshal r payload).2
        ≠ Err (JSONUnmarshalError_Wrap (InvalidType what known)).
Proof.
  intros Hguts Hlast Hempty first.
  rewrite SyncTypeRegistry_Unmarshal_result.
  rewrite (TypeRegistry_Unmarshal_parsed _ _ _ Hguts), Hlast, Hempty, dispatch_empty.
  by split_and!.
Qed.

(** C4, amended. In tag mode, when the payload parses, the last configured
    tag name present in it has a value that is not empty once its quotes
    are stripped, and that discriminant is not registered, [Unmarshal]
    returns [InvalidType] (unknown discriminant) with the attempted
    discriminant and the registry's list of discriminants, whose members
    are exactly the registered discriminants. *)
Theorem tag_unknown_discriminant (r : TypeRegistry.t rtype) payload guts tag value :
  TypeRegistry.reachable r →
  json_Unmarshal_map payload = inr guts →
  TypeRegistry.last_present guts
    (TypeRegistry.default_Typetags (TypeRegistry.Typetags r)) = Some (tag, value) →
  strings.Trim value dquote ≠ EmptyString →
  index_map (TypeRegistry.registry r) (strings.Trim value dquote) = None →
  let unknown :=
    Err (JSONUnmarshalError_Wrap
           (InvalidType (strings.Trim value dquote) (TypeRegistry.types r))) in
  TypeRegistry.Unmarshal r payload = unknown
  ∧ (SyncTypeRegistry.Unmarshal r payload).2 = unknown
  ∧ ∀ d, d ∈ TypeRegistry.types r ↔ is_Some (index_map (TypeRegistry.registry r) d).
Proof.
  intros Hreach Hguts Hlast Hne Hunknown unknown.
  rewrite SyncTypeRegistry_Unmarshal_result.
  rewrite (TypeRegistry_Unmarshal_parsed _ _ _ Hguts), Hlast.
  rewrite dispatch_nonempty by done. rewrite Hunknown.
  split_and!; [done..|]. by apply TypeRegistry_reachable_consistent.
Qed.

(** C6. In tag mode, when the discriminant extracted from the payload is
    registered, [Unmarshal] allocates a value of the matched type and
    decodes the whole payload into it (the bytes it was called with, tag
    field included), and returns that value when the decoding succeeds.
    Discriminants are non-empty strings. *)
Theorem tag_decodes_entire_payload (r : TypeRegistry.t rtype) payload guts tag value valueType :
  json_Unmarshal_map payload = inr guts →
  TypeRegistry.last_present guts
    (TypeRegistry.default_Typetags (TypeRegistry.Typetags r)) = Some (tag, value) →
  strings.Trim value dquote ≠ EmptyString →
  index_map (TypeRegistry.registry r) (strings.Trim value dquote) = Some valueType →
  TypeRegistry.Unmarshal r payload = new_and_decode valueType payload
  ∧ (SyncTypeRegistry.Unmarshal r payload).2 = new_and_decode valueType payload
  ∧ ∀ object,
      json_Unmarshal_new valueType payload = inr object →
      asserts_T valueType = true →
      TypeRegistry.Unmarshal r payload = Ok object
      ∧ (SyncTypeRegistry.Unmarshal r payload).2 = Ok object.
Proof.
  intros Hguts Hlast Hne Hfound.
  rewrite SyncTypeRegistry_Unmarshal_result.
  rewrite (TypeRegistry_Unmarshal_parsed _ _ _ Hguts), Hlast.
  rewrite dispatch_nonempty by done. rewrite Hfound.
  split_and!; [done..|]. intros object Hdecode Hassert.
  unfold new_and_decode. by rewrite Hdecode, Hassert.
Qed.


(** ** Property mode: the loop over the fields of the payload *)

Lemma range_order_elem_of {V} (m : gmap string V) order k :
  range_order m order → k ∈ order ↔ is_Some (m !! k).
Proof.
  unfold range_order. intros ->. rewrite list_elem_of_fmap. split.
  - intros ([k' v] & -> & Hin). apply elem_of_map_to_list in Hin. by eexists.
  - intros [v Hv]. exists (k, v). split; [done|]. by apply elem_of_map_to_list.
Qed.

Lemma range_order_keys {V} (m : gmap string V) : range_order m (map_to_list m).*1.
Proof. by unfold range_order. Qed.

(** The loop returns either the error that follows it, when no field it
    visits is a registered discriminant, or the decoding of one of the
    fields that are. *)
Lemma range_guts_cases catalog known (guts : gmap string string) order :
  (∀ k, k ∈ order → is_Some (guts !! k)) →
  (PropertyRegistry.range_guts catalog known guts order
     = Err (JSONUnmarshalError_Wrap (ArgumentMissing (strings.Join known ", ")))
   ∧ ∀ k, k ∈ order → index_map catalog k = None)
  ∨ ∃ k valueType value,
      k ∈ order ∧ index_map catalog k = Some valueType ∧ guts !! k = Some value
      ∧ PropertyRegistry.range_guts catalog known guts order
        = new_and_decode valueType value.
Proof.
  induction order as [|property rest IH]; intros Hkeys; simpl.
  - left. split; [done|]. by intros ? ?%elem_of_nil.
  - destruct (index_map catalog property) as [valueType|] eqn:Hreg.
    + destruct (Hkeys property) as [value Hvalue]; [by left|].
      rewrite Hvalue. right. exists property, valueType, value.
      split_and!; [by left|done..].
    + destruct IH as [[-> Hnone]|(k & valueType & value & Hin & ? & ? & ->)].
      * intros k Hin. apply Hkeys. by right.
      * left. split; [done|]. by intros k [->|?]%elem_of_cons; auto.
      * right. exists k, valueType, value. split_and!; [by right|done..].
Qed.

Lemma range_guts_no_match catalog known (guts : gmap string string) order :
  (∀ k, k ∈ order → index_map catalog k = None) →
  PropertyRegistry.range_guts catalog known guts order
  = Err (JSONUnmarshalError_Wrap (ArgumentMissing (strings.Join known ", "))).
Proof.
  induction order as [|property rest IH]; intros Hnone; simpl; [done|].
  rewrite (Hnone property) by by left. apply IH. intros k Hin. apply Hnone. by right.
Qed.

(** When at most one field of the payload is a registered discriminant,
    the loop returns the same result along every enumeration of the
    fields. *)
Lemma range_guts_order_irrelevant catalog known (guts : gmap string string) order1 order2 :
  (∀ k1 k2, is_Some (guts !! k1) → is_Some (guts !! k2) →
            is_Some (index_map catalog k1) → is_Some (index_map catalog k2) → k1 = k2) →
  range_order guts order1 → range_order guts order2 →
  PropertyRegistry.range_guts catalog known guts order1
  = PropertyRegistry.range_guts catalog known guts order2.
Proof.
  intros Hone Ho1 Ho2.
  destruct (range_guts_cases catalog known guts order1) as
    [[-> Hnone1]|(k1 & ty1 & v1 & Hin1 & Hreg1 & Hv1 & ->)].
  { intros k Hin. by apply (range_order_elem_of guts order1). }
  - symmetry. apply range_guts_no_match. intros k Hin. apply Hnone1.
    apply (range_order_elem_of guts order1); [done|].
    by apply (range_order_elem_of guts order2).
  - destruct (range_guts_cases catalog known guts order2) as
      [[_ Hnone2]|(k2 & ty2 & v2 & Hin2 & Hreg2 & Hv2 & ->)].
    { intros k Hin. by apply (range_order_elem_of guts order2). }
    + rewrite Hnone2 in Hreg1; [done|].
      apply (range_order_elem_of guts order2); [done|]. by eexists.
    + assert (k1 = k2) as <- by (apply Hone; by eexists). congruence.
Qed.

Lemma SyncPropertyRegistry_Unmarshal_iff (r : PropertyRegistry.t rtype) payload st :
  SyncPropertyRegistry.Unmarshal r payload st
  ↔ st.1 = r ∧ PropertyRegistry.Unmarshal r payload st.2.
Proof.
  split.
  - intros [err Herr|guts order Hguts Horder]; (split; [done|]); simpl.
    + by constructor.
    + by econstructor.
  - destruct st as [r' out]; simpl. intros [-> [err Herr|guts order Hguts Horder]].
    + by constructor.
    + by econstructor.
Qed.

Lemma PropertyRegistry_Unmarshal_along (r : PropertyRegistry.t rtype) payload guts order out :
  json_Unmarshal_map payload = inr guts →
  range_order guts order →
  PropertyRegistry.range_guts (PropertyRegistry.registry r) (PropertyRegistry.types r)
    guts order = out →
  PropertyRegistry.Unmarshal r payload out.
Proof. intros Hguts Horder <-. by econstructor. Qed.

Lemma SyncPropertyRegistry_Unmarshal_frame (r : PropertyRegistry.t rtype) payload st :
  SyncPropertyRegistry.Unmarshal r payload st → st.1 = r.
Proof. by intros [? _]%SyncPropertyRegistry_Unmarshal_iff. Qed.

(** ** Property mode: the claims *)

(** C7. In property mode, when the payload parses and none of its
    top-level field names is a registered discriminant, [Unmarshal]
    returns, and can only return, the error [ArgumentMissing] (missing
    discriminant) whose text is the known discriminants joined by a comma
    and a space; that list holds the discriminants in the order in which
    [Add] received them. *)
Theorem property_missing_discriminant (r : PropertyRegistry.t rtype) payload guts :
  json_Unmarshal_map payload = inr guts →
  (∀ k, is_Some (guts !! k) → index_map (PropertyRegistry.registry r) k = None) →
  let missing :=
    Err (JSONUnmarshalError_Wrap
           (ArgumentMissing (strings.Join (PropertyRegistry.types r) ", "))) in
  PropertyRegistry.Unmarshal r payload missing
  ∧ (∀ out, PropertyRegistry.Unmarshal r payload out → out = missing)
  ∧ SyncPropertyRegistry.Unmarshal r payload (r, missing)
  ∧ (∀ st, SyncPropertyRegistry.Unmarshal r payload st → st = (r, missing))
  ∧ ∀ (r0 : PropertyRegistry.t rtype) classes,
      PropertyRegistry.types (PropertyRegistry.Add r0 classes)
      = PropertyRegistry.types r0 ++ (GetType <$> classes).
Proof.
  intros Hguts Hnone missing.
  assert (∀ order, range_order guts order →
            PropertyRegistry.range_guts (PropertyRegistry.registry r)
              (PropertyRegistry.types r) guts order = missing) as Hrange.
  { intros order Horder. apply range_guts_no_match. intros k Hin.
    apply Hnone. by apply (range_order_elem_of guts order). }
  assert (PropertyRegistry.Unmarshal r payload missing) as Hrun.
  { rewrite <- (Hrange _ (range_order_keys guts)).
    apply PropertyRegistry.Unmarshal_range; [done | apply range_order_keys]. }
  assert (∀ out, PropertyRegistry.Unmarshal r payload out → out = missing) as Honly.
  { intros out [err Herr|guts' order Hguts' Horder]; [congruence|].
    assert (guts' = guts) as -> by congruence. by apply Hrange. }
  split_and!; [done..| | |].
  - by apply SyncPropertyRegistry_Unmarshal_iff.
  - intros [r' out] [Hr Hout]%SyncPropertyRegistry_Unmarshal_iff; simpl in *.
    by rewrite Hr, (Honly _ Hout).
  - intros r0 classes. unfold PropertyRegistry.Add; simpl.
    by rewrite foldl_add_class_types.
Qed.

(** C2, amended. Property-mode [Unmarshal] returns the same result on
    every run for a payload in which at most one top-level field name is a
    registered discriminant, whatever the order in which the fields are
    visited. (Tag-mode [Unmarshal] visits the tag names in the order of a
    slice and is a function of the registry and the payload.) *)
Theorem property_Unmarshal_deterministic (r : PropertyRegistry.t rtype) payload :
  (∀ guts k1 k2,
     json_Unmarshal_map payload = inr guts →
     is_Some (guts !! k1) → is_Some (guts !! k2) →
     is_Some (index_map (PropertyRegistry.registry r) k1) →
     is_Some (index_map (PropertyRegistry.registry r) k2) → k1 = k2) →
  (∀ out1 out2,
     PropertyRegistry.Unmarshal r payload out1 →
     PropertyRegistry.Unmarshal r payload out2 → out1 = out2)
  ∧ (∀ st1 st2,
       SyncPropertyRegistry.Unmarshal r payload st1 →
       SyncPropertyRegistry.Unmarshal r payload st2 → st1 = st2).
Proof.
  intros Hone.
  assert (∀ out1 out2,
     PropertyRegistry.Unmarshal r payload out1 →
     PropertyRegistry.Unmarshal r payload out2 → out1 = out2) as Hdet.
  { intros out1 out2 [err1 Herr1|guts1 order1 Hguts1 Horder1]
                     [err2 Herr2|guts2 order2 Hguts2 Horder2]; try congruence.
    assert (guts2 = guts1) as -> by congruence.
    apply range_guts_order_irrelevant; [|done..].
    intros k1 k2. by apply Hone. }
  split; [done|].
  intros [r1 out1] [r2 out2] [Hr1 Hout1]%SyncPropertyRegistry_Unmarshal_iff
    [Hr2 Hout2]%SyncPropertyRegistry_Unmarshal_iff; simpl in *.
  by rewrite Hr1, Hr2, (Hdet _ _ Hout1 Hout2).
Qed.

(** ** Registering a discriminant again *)

(** A payload one field of which, and only one, is a registered
    discriminant: the value of that field is what gets decoded. *)
Lemma property_Unmarshal_single_match (r : PropertyRegistry.t rtype) payload guts d value valueType :
  json_Unmarshal_map payload = inr guts →
  guts !! d = Some value →
  index_map (PropertyRegistry.registry r) d = Some valueType →
  (∀ k, is_Some (guts !! k) →
        is_Some (index_map (PropertyRegistry.registry r) k) → k = d) →
  PropertyRegistry.Unmarshal r payload (new_and_decode valueType value)
  ∧ ∀ out, PropertyRegistry.Unmarshal r payload out → out = new_and_decode valueType value.
Proof.
  intros Hguts Hvalue Hreg Hone.
  assert (∀ order, range_order guts order →
            PropertyRegistry.range_guts (PropertyRegistry.registry r)
              (PropertyRegistry.types r) guts order = new_and_decode valueType value)
    as Hrange.
  { intros order Horder.
    destruct (range_guts_cases (PropertyRegistry.registry r)
                (PropertyRegistry.types r) guts order)
      as [[_ Hnone]|(k & ty & v & Hin & Hk & Hv & ->)].
    - intros k Hin. by apply (range_order_elem_of guts order).
    - rewrite Hnone in Hreg; [done|].
      apply (range_order_elem_of guts order); [done|]. by eexists.
    - assert (k = d) as -> by (apply Hone; by eexists). congruence. }
  split.
  - rewrite <- (Hrange _ (range_order_keys guts)).
    apply PropertyRegistry.Unmarshal_range; [done | apply range_order_keys].
  - intros out [err Herr|guts' order Hguts' Horder]; [congruence|].
    assert (guts' = guts) as -> by congruence. by apply Hrange.
Qed.

(** C5. Registering a discriminant that is already registered overwrites
    its descriptor, in each of the four registries: [Size] does not
    increase, the ordered list of discriminants gains one more entry (a
    repeat of the discriminant), and [Unmarshal] on a payload that carries
    the discriminant decodes into the type registered last. *)
Theorem Add_again_overwrites (r : TypeRegistry.t rtype) (pr : PropertyRegistry.t rtype)
    (class : TypeCarrier rtype) :
  is_Some (index_map (TypeRegistry.registry r) (GetType class)) →
  is_Some (index_map (PropertyRegistry.registry pr) (GetType class)) →
  let d := GetType class in
  let r' := TypeRegistry.Add r [class] in
  let sr' := SyncTypeRegistry.Add r [class] in
  let pr' := PropertyRegistry.Add pr [class] in
  let spr' := SyncPropertyRegistry.Add pr [class] in
  (TypeRegistry.Size r' = TypeRegistry.Size r
   ∧ SyncTypeRegistry.Size sr' = SyncTypeRegistry.Size r
   ∧ PropertyRegistry.Size pr' = PropertyRegistry.Size pr
   ∧ SyncPropertyRegistry.Size spr' = SyncPropertyRegistry.Size pr)
  ∧ (TypeRegistry.types r' = TypeRegistry.types r ++ [d]
     ∧ TypeRegistry.types sr' = TypeRegistry.types r ++ [d]
     ∧ PropertyRegistry.types pr' = PropertyRegistry.types pr ++ [d]
     ∧ PropertyRegistry.types spr' = PropertyRegistry.types pr ++ [d])
  ∧ (∀ payload guts tag value,
       json_Unmarshal_map payload = inr guts →
       TypeRegistry.last_present guts
         (TypeRegistry.default_Typetags (TypeRegistry.Typetags r)) = Some (tag, value) →
       strings.Trim value dquote = d →
       d ≠ EmptyString →
       TypeRegistry.Unmarshal r' payload = new_and_decode (TypeOf class) payload
       ∧ (SyncTypeRegistry.Unmarshal sr' payload).2 = new_and_decode (TypeOf class) payload)
  ∧ (∀ payload guts value,
       json_Unmarshal_map payload = inr guts →
       guts !! d = Some value →
       (∀ k, is_Some (guts !! k) →
             is_Some (index_map (PropertyRegistry.registry pr') k) → k = d) →
       (PropertyRegistry.Unmarshal pr' payload (new_and_decode (TypeOf class) value)
        ∧ ∀ out, PropertyRegistry.Unmarshal pr' payload out →
                 out = new_and_decode (TypeOf class) value)
       ∧ (SyncPropertyRegistry.Unmarshal spr' payload
            (spr', new_and_decode (TypeOf class) value)
          ∧ ∀ st, SyncPropertyRegistry.Unmarshal spr' payload st →
                  st = (spr', new_and_decode (TypeOf class) value))).
Proof.
  intros Hr Hpr d r' sr' pr' spr'.
  destruct r as [tags [m|] ts]; [|by destruct Hr].
  destruct pr as [[pm|] pts]; [|by destruct Hpr].
  simpl in Hr, Hpr.
  destruct (add_class_again m ts class Hr) as (Hsize & Hlookup & Htypes).
  destruct (add_class_again pm pts class Hpr) as (Hpsize & Hplookup & Hptypes).
  split_and!; try done.
  - intros payload guts tag value Hguts Hlast Htrim Hne.
    change sr' with r'. rewrite SyncTypeRegistry_Unmarshal_result.
    rewrite (TypeRegistry_Unmarshal_parsed _ _ _ Hguts). simpl.
    simpl in Hlast. rewrite Hlast, Htrim.
    rewrite dispatch_nonempty by done. simpl. fold d. by rewrite lookup_insert_eq.
  - intros payload guts value Hguts Hvalue Hone.
    assert (index_map (PropertyRegistry.registry pr') d = Some (TypeOf class)) as Hreg.
    { simpl. by rewrite lookup_insert_eq. }
    pose proof (property_Unmarshal_single_match pr' payload guts d value
                  (TypeOf class) Hguts Hvalue Hreg Hone) as [Hrun Honly].
    split; [done|]. split.
    + by apply SyncPropertyRegistry_Unmarshal_iff.
    + intros [r1 out] [Hr1 Hout]%SyncPropertyRegistry_Unmarshal_iff; simpl in *.
      by rewrite Hr1, (Honly _ Hout).
Qed.

End properties.

(** * The scenarios of the test suite *)

Section scenarios.
#[local] Existing Instance common_test.json.
Import common_test.

Example type_registry_can_unmarshal :
  TypeRegistry.Unmarshal (type_registry []) payload_something1
  = Ok (ptr_Something1 "data").
Proof. vm_compute. reflexivity. Qed.

Example type_registry_can_unmarshal_with_type_tag :
  TypeRegistry.Unmarshal (type_registry ["__type"]) payload_typetag
  = Ok (ptr_Something1 "data").
Proof. vm_compute. reflexivity. Qed.

Example type_registry_should_fail_with_invalid_type :
  TypeRegistry.Unmarshal (type_registry []) payload_something3
  = Err (JSONUnmarshalError_Wrap (InvalidType "something3" ["something1"; "something2"])).
Proof. vm_compute. reflexivity. Qed.

Example type_registry_should_fail_with_invalid_json :
  TypeRegistry.Unmarshal (type_registry []) payload_invalid_json
  = Err (JSONUnmarshalError_Wrap (FromJSON SyntaxError)).
Proof. vm_compute. reflexivity. Qed.

Example type_registry_should_fail_with_invalid_data_type :
  TypeRegistry.Unmarshal (type_registry []) payload_data_number
  = Err (JSONUnmarshalError_Wrap (FromJSON (UnmarshalTypeError "data")))
  ∧ TypeRegistry.Unmarshal (type_registry []) payload_data_else
    = Err (AsReturned (ArgumentInvalid "data" "else")).
Proof. split; vm_compute; reflexivity. Qed.

Example Trim_strips_every_quote :
  strings.Trim (q "something1") dquote = "something1"
  ∧ strings.Trim (q (q "a" +:+ "b")) dquote = "a" +:+ dquote +:+ "b"
  ∧ strings.Trim (q "") dquote = ""
  ∧ strings.Trim "null" dquote = "null".
Proof. split_and!; reflexivity. Qed.

Example property_registry_types :
  strings.Join (PropertyRegistry.types property_registry) ", " = "something1, something2".
Proof. vm_compute. reflexivity. Qed.

(** The hypotheses of the claims, on the payloads above. *)
Ltac by_evaluation := vm_compute; reflexivity.

Lemma tag_last_match_wins_witness :
  TypeRegistry.Unmarshal (type_registry ["type"; "__type"]) payload_two_tags
  = Ok (ptr_Something2 "data")
  ∧ (SyncTypeRegistry.Unmarshal (type_registry ["type"; "__type"]) payload_two_tags).2
    = Ok (ptr_Something2 "data").
Proof.
  destruct (tag_last_match_wins (type_registry ["type"; "__type"]) payload_two_tags
              (guts_of payload_two_tags) "__type" (q "something2"))
    as (_ & _ & -> & ->); [by_evaluation..|].
  split; by_evaluation.
Defined.

Lemma tag_missing_discriminant_witness :
  TypeRegistry.Unmarshal (type_registry []) payload_without_type
  = Err (JSONUnmarshalError_Wrap (ArgumentMissing "type"))
  ∧ (SyncTypeRegistry.Unmarshal (type_registry []) payload_without_type).2
    = Err (JSONUnmarshalError_Wrap (ArgumentMissing "type")).
Proof.
  destruct (tag_missing_discriminant (type_registry []) payload_without_type
              (guts_of payload_without_type)) as (_ & Hplain & Hsync);
    [by_evaluation| |by split].
  intros tag ->%list_elem_of_singleton. by_evaluation.
Defined.

Lemma tag_empty_value_missing_witness :
  TypeRegistry.Unmarshal (type_registry []) payload_empty_type
  = Err (JSONUnmarshalError_Wrap (ArgumentMissing "type"))
  ∧ (SyncTypeRegistry.Unmarshal (type_registry []) payload_empty_type).2
    = Err (JSONUnmarshalError_Wrap (ArgumentMissing "type")).
Proof.
  destruct (tag_empty_value_missing (type_registry []) payload_empty_type
              (guts_of payload_empty_type) "type" (q ""))
    as (Hplain & Hsync & _); [by_evaluation..|].
  by split.
Defined.

(** C4 as stated fails. In the first payload the configured tag field
    [type] is present, its value is the empty string, which is not a
    registered discriminant, and [Unmarshal] returns [ArgumentMissing]
    (missing discriminant), not [InvalidType] (unknown discriminant). In
    the second the tag field [type] carries the unregistered [something3],
    the later tag field [__type] is empty, and the result is again
    [ArgumentMissing]. *)
Lemma tag_empty_value_is_not_unknown :
  (json_Unmarshal_map payload_empty_type = inr (guts_of payload_empty_type)
   ∧ guts_of payload_empty_type !! "type" = Some (q "")
   ∧ index_map (TypeRegistry.registry (type_registry []))
       (strings.Trim (q "") dquote) = None
   ∧ TypeRegistry.Unmarshal (type_registry []) payload_empty_type
     = Err (JSONUnmarshalError_Wrap (ArgumentMissing "type"))
   ∧ TypeRegistry.Unmarshal (type_registry []) payload_empty_type
     ≠ Err (JSONUnmarshalError_Wrap
              (InvalidType (strings.Trim (q "") dquote)
                 (TypeRegistry.types (type_registry [])))))
  ∧ (json_Unmarshal_map payload_empty_second_tag
     = inr (guts_of payload_empty_second_tag)
     ∧ guts_of payload_empty_second_tag !! "type" = Some (q "something3")
     ∧ index_map (TypeRegistry.registry (type_registry ["type"; "__type"]))
         "something3" = None
     ∧ TypeRegistry.Unmarshal (type_registry ["type"; "__type"]) payload_empty_second_tag
       = Err (JSONUnmarshalError_Wrap (ArgumentMissing "type"))
     ∧ (SyncTypeRegistry.Unmarshal (type_registry ["type"; "__type"])
          payload_empty_second_tag).2
       = Err (JSONUnmarshalError_Wrap (ArgumentMissing "type"))).
Proof.
  split; split_and!; try by_evaluation. vm_compute. discriminate.
Qed.

Lemma type_registry_reachable tags : TypeRegistry.reachable (type_registry tags).
Proof. do 2 apply TypeRegistry.reachable_Add. apply TypeRegistry.reachable_New. Defined.

Lemma tag_unknown_discriminant_witness :
  TypeRegistry.Unmarshal (type_registry []) payload_something3
  = Err (JSONUnmarshalError_Wrap (InvalidType "something3" ["something1"; "something2"]))
  ∧ (SyncTypeRegistry.Unmarshal (type_registry []) payload_something3).2
    = Err (JSONUnmarshalError_Wrap (InvalidType "something3" ["something1"; "something2"])).
Proof.
  destruct (tag_unknown_discriminant (type_registry []) payload_something3
              (guts_of payload_something3) "type" (q "something3"))
    as (Hplain & Hsync & _);
    [apply type_registry_reachable | by_evaluation | by_evaluation
    | vm_compute; discriminate | by_evaluation |].
  by split.
Defined.

Lemma tag_decodes_entire_payload_witness :
  TypeRegistry.Unmarshal (type_registry ["__type"]) payload_typetag
  = Ok (ptr_Something1 "data")
  ∧ (SyncTypeRegistry.Unmarshal (type_registry ["__type"]) payload_typetag).2
    = Ok (ptr_Something1 "data").
Proof.
  destruct (tag_decodes_entire_payload (type_registry ["__type"]) payload_typetag
              (guts_of payload_typetag) "__type" (q "something1") Something1)
    as (_ & _ & Hok);
    [by_evaluation | by_evaluation | vm_compute; discriminate | by_evaluation |].
  apply Hok; by_evaluation.
Defined.


Lemma property_missing_discriminant_witness :
  PropertyRegistry.Unmarshal property_registry property_something3
    (Err (JSONUnmarshalError_Wrap (ArgumentMissing "something1, something2"))).
Proof.
  destruct (property_missing_discriminant property_registry property_something3
              (guts_of property_something3)) as (Hrun & _); [by_evaluation| |].
  - intros k [value Hk]. destruct (decide (k = "something3")) as [->|Hne].
    + by_evaluation.
    + exfalso. revert Hk. unfold guts_of.
      replace (read_object property_something3)
        with (Some ({[ "something3" := object [member "data" (q "data")] ]}
                      : gmap string string)) by by_evaluation.
      simpl. by rewrite lookup_singleton_ne.
  - exact Hrun.
Defined.

(** C2 as stated fails: on a payload with two fields that are both
    registered discriminants, property-mode [Unmarshal] returns the
    decoding of the one its loop visits first, and the two orders of
    visit give two different results. *)
Lemma property_Unmarshal_two_results :
  PropertyRegistry.Unmarshal property_registry property_both (Ok (ptr_Something1 "data"))
  ∧ PropertyRegistry.Unmarshal property_registry property_both (Ok (ptr_Something2 "data"))
  ∧ (Ok (ptr_Something1 "data") : result instance jerror) ≠ Ok (ptr_Something2 "data").
Proof.
  split_and!; [| |discriminate].
  - apply (PropertyRegistry_Unmarshal_along _ _ (guts_of property_both)
             ["something1"; "something2"]); [by_evaluation| |by_evaluation].
    unfold range_order. vm_compute. first [reflexivity | apply perm_swap].
  - apply (PropertyRegistry_Unmarshal_along _ _ (guts_of property_both)
             ["something2"; "something1"]); [by_evaluation| |by_evaluation].
    unfold range_order. vm_compute. first [reflexivity | apply perm_swap].
Qed.

Lemma property_Unmarshal_deterministic_witness :
  PropertyRegistry.range_guts (PropertyRegistry.registry property_registry)
    (PropertyRegistry.types property_registry)
    (guts_of property_something2_versioned) ["something2"; "version"]
  = PropertyRegistry.range_guts (PropertyRegistry.registry property_registry)
      (PropertyRegistry.types property_registry)
      (guts_of property_something2_versioned) ["version"; "something2"]
  ∧ PropertyRegistry.Unmarshal property_registry property_something2_versioned
      (Ok (ptr_Something2 "data")).
Proof.
  assert (guts_of property_something2_versioned
          = {[ "something2" := object [member "data" (q "data")]; "version" := "1" ]})
    as Hguts by by_evaluation.
  destruct (property_Unmarshal_deterministic property_registry
              property_something2_versioned) as [Hdet _].
  - intros guts k1 k2 Hparse Hk1 Hk2 Hreg1 Hreg2.
    assert (guts = guts_of property_something2_versioned) as ->.
    { assert (json_Unmarshal_map property_something2_versioned
              = inr (guts_of property_something2_versioned)) as Hparse'
        by by_evaluation.
      congruence. }
    rewrite Hguts in Hk1, Hk2.
    assert (∀ k, is_Some (({[ "something2" := object [member "data" (q "data")];
                             "version" := "1" ]} : gmap string string) !! k) →
                 is_Some (index_map (PropertyRegistry.registry property_registry) k) →
                 k = "something2") as Hone.
    { intros k [v Hv] [ty Hty].
      apply lookup_insert_Some in Hv as [[<- _]|[_ Hv]]; [done|].
      apply lookup_singleton_Some in Hv as [<- _].
      exfalso. revert Hty. vm_compute. discriminate. }
    by rewrite (Hone k1), (Hone k2).
  - split.
    + apply Hdet.
      * apply (PropertyRegistry_Unmarshal_along _ _
                 (guts_of property_something2_versioned) ["something2"; "version"]);
          [by_evaluation| |reflexivity].
        unfold range_order. vm_compute. first [reflexivity | apply perm_swap].
      * apply (PropertyRegistry_Unmarshal_along _ _
                 (guts_of property_something2_versioned) ["version"; "something2"]);
          [by_evaluation| |reflexivity].
        unfold range_order. vm_compute. first [reflexivity | apply perm_swap].
    + apply (PropertyRegistry_Unmarshal_along _ _
               (guts_of property_something2_versioned) ["something2"; "version"]);
        [by_evaluation| |by_evaluation].
      unfold range_order. vm_compute. first [reflexivity | apply perm_swap].
Defined.

Lemma Add_again_overwrites_witness :
  TypeRegistry.Size (TypeRegistry.Add (type_registry []) [something1]) = 2
  ∧ TypeRegistry.types (TypeRegistry.Add (type_registry []) [something1])
    = ["something1"; "something2"; "something1"]
  ∧ TypeRegistry.Unmarshal (TypeRegistry.Add (type_registry []) [something1])
      payload_something1 = Ok (ptr_Something1 "data").
Proof.
  destruct (Add_again_overwrites (type_registry []) property_registry something1)
    as ((Hsize & _) & (Htypes & _) & Htag & _);
    [vm_compute; by eexists..|].
  destruct (Htag payload_something1 (guts_of payload_something1) "type" (q "something1"))
    as [Hplain _]; [by_evaluation | by_evaluation | by_evaluation | vm_compute; discriminate |].
  split_and!.
  - rewrite Hsize. by_evaluation.
  - rewrite Htypes. by_evaluation.
  - rewrite Hplain. by_evaluation.
Defined.

(** C3 fails on the thread-safe tag-mode registry. Its [Unmarshal] has a
    pointer receiver, and on a registry without tag names it stores the
    default tag name in the registry itself: after the call [Typetags]
    holds [type] instead of nothing. The catalog and the list of
    discriminants are left as they were. A tag name added after that call
    joins the stored default, whereas on [TypeRegistry], whose [Unmarshal]
    works on a copy, it becomes the only tag name. *)
Theorem SyncTypeRegistry_Unmarshal_writes_Typetags :
  let r := sync_type_registry [] in
  let after := (SyncTypeRegistry.Unmarshal r payload_something1).1 in
  TypeRegistry.Typetags r = []
  ∧ TypeRegistry.Typetags after = ["type"]
  ∧ after ≠ r
  ∧ TypeRegistry.registry after = TypeRegistry.registry r
  ∧ TypeRegistry.types after = TypeRegistry.types r
  ∧ TypeRegistry.Typetags (SyncTypeRegistry.AddTypeTag after "__type") = ["type"; "__type"]
  ∧ TypeRegistry.Typetags (TypeRegistry.AddTypeTag (type_registry []) "__type") = ["__type"].
Proof.
  intros r after. subst after. rewrite SyncTypeRegistry_Unmarshal_state.
  split_and!; try reflexivity.
  intros Heq. apply (f_equal TypeRegistry.Typetags) in Heq. discriminate Heq.
Qed.

End scenarios.

(** * Further properties of the registries *)

Section catalog.
Context {rtype instance jerror : Type} `{!JSON rtype instance jerror}.

(** ** [Add], [Append] and [Size] *)

Lemma foldl_add_class_eta (classes : list (TypeCarrier rtype)) acc :
  foldl add_class (acc.1, acc.2) classes = foldl add_class acc classes.
Proof. by destruct acc. Qed.

Lemma foldl_add_class_lookup (classes : list (TypeCarrier rtype)) acc d :
  (foldl add_class acc classes).1 !! d =
  match last (filter (λ class, GetType class = d) classes) with
  | Some class => Some (TypeOf class)
  | None => acc.1 !! d
  end.
Proof.
  induction classes as [|class classes IH] using rev_ind; [done|].
  rewrite foldl_snoc, filter_app. simpl. rewrite filter_cons, filter_nil.
  destruct (decide (GetType class = d)) as [<-|Hne].
  - by rewrite last_snoc, lookup_insert_eq.
  - rewrite app_nil_r, lookup_insert_ne by done. apply IH.
Qed.

Lemma foldl_add_class_dom (classes : list (TypeCarrier rtype)) acc :
  dom (foldl add_class acc classes).1 = dom acc.1 ∪ list_to_set (GetType <$> classes).
Proof.
  revert acc. induction classes as [|class classes IH]; intros acc; simpl.
  - by rewrite union_empty_r_L.
  - rewrite IH. simpl. rewrite dom_insert_L.
    by rewrite (comm_L (∪) {[GetType class]}), <- (assoc_L (∪)).
Qed.

(** X1. [Add] composes: adding two batches one after the other is adding
    their concatenation, so that [Add(a).Append(b)] is [Add(a, b)]; the
    list of discriminants grows by the discriminants of the batch, in
    order, and the tag names are left alone. The same holds in the four
    registries. *)
Theorem Add_composes (r : TypeRegistry.t rtype) (pr : PropertyRegistry.t rtype)
    (first second : list (TypeCarrier rtype)) :
  (TypeRegistry.Append (TypeRegistry.Add r first) second
     = TypeRegistry.Add r (first ++ second)
   ∧ SyncTypeRegistry.Append (SyncTypeRegistry.Add r first) second
     = SyncTypeRegistry.Add r (first ++ second)
   ∧ PropertyRegistry.Append (PropertyRegistry.Add pr first) second
     = PropertyRegistry.Add pr (first ++ second)
   ∧ SyncPropertyRegistry.Append (SyncPropertyRegistry.Add pr first) second
     = SyncPropertyRegistry.Add pr (first ++ second))
  ∧ (TypeRegistry.types (TypeRegistry.Add r first)
       = TypeRegistry.types r ++ (GetType <$> first)
     ∧ TypeRegistry.types (SyncTypeRegistry.Add r first)
       = TypeRegistry.types r ++ (GetType <$> first)
     ∧ PropertyRegistry.types (SyncPropertyRegistry.Add pr first)
       = PropertyRegistry.types pr ++ (GetType <$> first))
  ∧ TypeRegistry.Typetags (TypeRegistry.Add r first) = TypeRegistry.Typetags r
  ∧ TypeRegistry.Typetags (SyncTypeRegistry.Add r first) = TypeRegistry.Typetags r.
Proof.
  assert (TypeRegistry.Add (TypeRegistry.Add r first) second
          = TypeRegistry.Add r (first ++ second)) as Htag.
  { unfold TypeRegistry.Add; simpl. by rewrite foldl_app, foldl_add_class_eta. }
  assert (PropertyRegistry.Add (PropertyRegistry.Add pr first) second
          = PropertyRegistry.Add pr (first ++ second)) as Hprop.
  { unfold PropertyRegistry.Add; simpl. by rewrite foldl_app, foldl_add_class_eta. }
  split_and!; try done.
  - unfold TypeRegistry.Add; simpl. apply foldl_add_class_types.
  - unfold SyncTypeRegistry.Add; simpl. apply foldl_add_class_types.
  - unfold SyncPropertyRegistry.Add; simpl. apply foldl_add_class_types.
Qed.

(** X2. Looking a discriminant up after [Add]: the carrier of the batch
    that comes last among those with this discriminant gives the type; a
    discriminant that no carrier of the batch has keeps the type it had. *)
Theorem Add_lookup_last_wins (r : TypeRegistry.t rtype) (pr : PropertyRegistry.t rtype)
    (classes : list (TypeCarrier rtype)) (d : string) :
  let latest := last (filter (λ class, GetType class = d) classes) in
  index_map (TypeRegistry.registry (TypeRegistry.Add r classes)) d
    = match latest with
      | Some class => Some (TypeOf class)
      | None => index_map (TypeRegistry.registry r) d
      end
  ∧ index_map (TypeRegistry.registry (SyncTypeRegistry.Add r classes)) d
    = match latest with
      | Some class => Some (TypeOf class)
      | None => index_map (TypeRegistry.registry r) d
      end
  ∧ index_map (PropertyRegistry.registry (PropertyRegistry.Add pr classes)) d
    = match latest with
      | Some class => Some (TypeOf class)
      | None => index_map (PropertyRegistry.registry pr) d
      end
  ∧ index_map (PropertyRegistry.registry (SyncPropertyRegistry.Add pr classes)) d
    = match latest with
      | Some class => Some (TypeOf class)
      | None => index_map (PropertyRegistry.registry pr) d
      end.
Proof.
  intros latest. subst latest.
  unfold TypeRegistry.Add, SyncTypeRegistry.Add, PropertyRegistry.Add,
    SyncPropertyRegistry.Add; simpl.
  rewrite !foldl_add_class_lookup; simpl.
  destruct r as [tags [m|] ts], pr as [[pm|] pts]; simpl;
    destruct (last _); by rewrite ?lookup_empty.
Qed.

(** The keys of the map are the members of the list of discriminants. *)
Lemma TypeRegistry_reachable_dom (r : TypeRegistry.t rtype) :
  TypeRegistry.reachable r →
  dom (default ∅ (TypeRegistry.registry r)) = list_to_set (TypeRegistry.types r).
Proof.
  induction 1 as [| tags | r classes _ IH | r tags _ IH]; simpl; [| | |done].
  - apply dom_empty_L.
  - apply dom_empty_L.
  - rewrite foldl_add_class_dom, foldl_add_class_types; simpl.
    rewrite list_to_set_app_L, <- IH. by destruct (TypeRegistry.registry r).
Qed.

Lemma PropertyRegistry_reachable_dom (r : PropertyRegistry.t rtype) :
  PropertyRegistry_reachable r →
  dom (default ∅ (PropertyRegistry.registry r)) = list_to_set (PropertyRegistry.types r).
Proof.
  induction 1 as [| tags | r classes _ IH]; simpl.
  - apply dom_empty_L.
  - apply dom_empty_L.
  - rewrite foldl_add_class_dom, foldl_add_class_types; simpl.
    rewrite list_to_set_app_L, <- IH. by destruct (PropertyRegistry.registry r).
Qed.

Lemma len_map_dom {V} (m : option (gmap string V)) :
  len_map m = size (dom (default ∅ m)).
Proof. destruct m; simpl; by rewrite size_dom. Qed.

Lemma size_list_to_set_remove_dups (l : list string) :
  size (list_to_set l : gset string) = length (remove_dups l).
Proof.
  rewrite <- (size_list_to_set (C := gset string) (remove_dups l))
    by apply NoDup_remove_dups.
  f_equal. apply set_eq. intros x.
  by rewrite !elem_of_list_to_set, elem_of_remove_dups.
Qed.

Lemma length_remove_dups (l : list string) : length (remove_dups l) ≤ length l.
Proof.
  induction l as [|x l IH]; simpl; [done|].
  destruct (decide_rel elem_of x l); simpl; lia.
Qed.

(** X3. [Size] and [Length] count the distinct discriminants that were
    registered: in a registry built through the package they are the
    number of different entries of the list of discriminants, and never
    more than the number of registrations. *)
Theorem Size_counts_distinct (r : TypeRegistry.t rtype) (pr : PropertyRegistry.t rtype) :
  TypeRegistry.reachable r →
  PropertyRegistry_reachable pr →
  (TypeRegistry.Size r = length (remove_dups (TypeRegistry.types r))
   ∧ TypeRegistry.Length r = TypeRegistry.Size r
   ∧ SyncTypeRegistry.Size r = TypeRegistry.Size r
   ∧ SyncTypeRegistry.Length r = TypeRegistry.Size r
   ∧ TypeRegistry.Size r ≤ length (TypeRegistry.types r))
  ∧ (PropertyRegistry.Size pr = length (remove_dups (PropertyRegistry.types pr))
     ∧ PropertyRegistry.Length pr = PropertyRegistry.Size pr
     ∧ SyncPropertyRegistry.Size pr = PropertyRegistry.Size pr
     ∧ SyncPropertyRegistry.Length pr = PropertyRegistry.Size pr
     ∧ PropertyRegistry.Size pr ≤ length (PropertyRegistry.types pr)).
Proof.
  intros Hr Hpr.
  assert (TypeRegistry.Size r = length (remove_dups (TypeRegistry.types r))) as Hsize.
  { unfold TypeRegistry.Size.
    by rewrite len_map_dom, TypeRegistry_reachable_dom, size_list_to_set_remove_dups. }
  assert (PropertyRegistry.Size pr = length (remove_dups (PropertyRegistry.types pr)))
    as Hpsize.
  { unfold PropertyRegistry.Size.
    by rewrite len_map_dom, PropertyRegistry_reachable_dom, size_list_to_set_remove_dups. }
  split; split_and!; try done.
  - rewrite Hsize. apply length_remove_dups.
  - rewrite Hpsize. apply length_remove_dups.
Qed.

End catalog.

(** ** [strings.Trim] *)

Lemma TrimLeft_stable s cutset :
  strings.TrimLeft (strings.TrimLeft s cutset) cutset = strings.TrimLeft s cutset.
Proof.
  induction s as [|a s IH]; simpl; [done|].
  destruct (strings.contains_byte cutset a) eqn:Ha; [done|].
  simpl. by rewrite Ha.
Qed.

Lemma TrimRight_stable s cutset :
  strings.TrimRight (strings.TrimRight s cutset) cutset = strings.TrimRight s cutset.
Proof.
  induction s as [|a s IH]; simpl; [done|].
  destruct (strings.TrimRight s cutset) as [|b kept] eqn:Hs.
  - destruct (strings.contains_byte cutset a) eqn:Ha; [done|].
    simpl. by rewrite Ha.
  - change (strings.TrimRight (String a (String b kept)) cutset = String a (String b kept)).
    cbn [strings.TrimRight]. cbn [strings.TrimRight] in IH.
    destruct (match strings.TrimRight kept cutset with
              | EmptyString =>
                  if strings.contains_byte cutset b then EmptyString
                  else String b EmptyString
              | String a0 s0 => String b (String a0 s0)
              end) eqn:Hk; [done|]. by rewrite IH.
Qed.

(** Trimming on the left keeps a string that has nothing to trim on the
    right that way. *)
Lemma TrimLeft_TrimRight_stable s cutset :
  strings.TrimRight s cutset = s →
  strings.TrimRight (strings.TrimLeft s cutset) cutset = strings.TrimLeft s cutset.
Proof.
  induction s as [|a s IH]; [done|]. intros Hs.
  cbn [strings.TrimLeft]. destruct (strings.contains_byte cutset a) eqn:Ha; [|done].
  apply IH. cbn [strings.TrimRight] in Hs. rewrite Ha in Hs.
  destruct (strings.TrimRight s cutset); [done|]. congruence.
Qed.

Lemma Trim_stable s cutset :
  strings.TrimLeft (strings.Trim s cutset) cutset = strings.Trim s cutset
  ∧ strings.TrimRight (strings.Trim s cutset) cutset = strings.Trim s cutset
  ∧ strings.Trim (strings.Trim s cutset) cutset = strings.Trim s cutset.
Proof.
  unfold strings.Trim.
  assert (strings.TrimRight (strings.TrimLeft (strings.TrimRight s cutset) cutset) cutset
          = strings.TrimLeft (strings.TrimRight s cutset) cutset) as Hr
    by apply TrimLeft_TrimRight_stable, TrimRight_stable.
  split_and!; [apply TrimLeft_stable | done |].
  rewrite Hr. apply TrimLeft_stable.
Qed.

Lemma TrimRight_snoc_cutset s cutset c :
  strings.contains_byte cutset c = true →
  strings.TrimRight (s +:+ String c EmptyString) cutset = strings.TrimRight s cutset.
Proof.
  intros Hc. induction s as [|a s IH]; simpl.
  - by rewrite Hc.
  - by rewrite IH.
Qed.

(** A string without a double quote at either end comes back from between
    quotes unchanged. *)
Lemma Trim_q d :
  strings.TrimLeft d dquote = d → strings.TrimRight d dquote = d →
  strings.Trim (q d) dquote = d.
Proof.
  intros Hl Hr. unfold strings.Trim, q, dquote.
  change (String "034" "" +:+ d +:+ String "034" "")
    with (String "034" (d +:+ String "034" "")).
  cbn [strings.TrimRight]. rewrite TrimRight_snoc_cutset by done.
  fold dquote. rewrite Hr. destruct d as [|a d]; [done|].
  cbn [strings.TrimLeft]. unfold dquote at 1. simpl strings.contains_byte.
  exact Hl.
Qed.

Section tag_mode.
Context {rtype instance jerror : Type} `{!JSON rtype instance jerror}.

(** ** Tag mode: every result of [Unmarshal] *)


Lemma dispatch_head tags1 tags2 catalog known payload objectType :
  head tags1 = head tags2 →
  TypeRegistry.dispatch (instance := instance) (jerror := jerror)
    tags1 catalog known payload objectType
  = TypeRegistry.dispatch tags2 catalog known payload objectType.
Proof.
  intros Hhead. unfold TypeRegistry.dispatch.
  destruct (decide (String.length objectType = 0)); [|done].
  destruct tags1, tags2; simpl in *; congruence.
Qed.

Lemma last_present_app_absent (guts : gmap string string) tags more :
  (∀ tag, tag ∈ more → guts !! tag = None) →
  TypeRegistry.last_present guts (tags ++ more) = TypeRegistry.last_present guts tags.
Proof.
  induction more as [|tag more IH] using rev_ind; intros Habsent.
  - by rewrite app_nil_r.
  - rewrite app_assoc, last_present_snoc, Habsent.
    + apply IH. intros t Hin. apply Habsent. rewrite elem_of_app. by left.
    + rewrite elem_of_app, list_elem_of_singleton. by right.
Qed.

Lemma TypeRegistry_Unmarshal_scanned (r : TypeRegistry.t rtype) payload guts :
  json_Unmarshal_map payload = inr guts →
  TypeRegistry.Unmarshal r payload =
  TypeRegistry.dispatch (TypeRegistry.default_Typetags (TypeRegistry.Typetags r))
    (TypeRegistry.registry r) (TypeRegistry.types r) payload
    (TypeRegistry.scan_Typetags guts
       (TypeRegistry.default_Typetags (TypeRegistry.Typetags r))).
Proof. intros Hguts. unfold TypeRegistry.Unmarshal. by rewrite Hguts. Qed.

(** X4. Tag-mode [Unmarshal] returns an object in one case only: the
    payload parses, the discriminant that the scan of the tag names
    extracts is not empty and is registered, the decoding of the payload
    into the registered type succeeds, and the decoded value asserts to
    [T]. The object is then the decoded value. *)
Theorem tag_Unmarshal_Ok_iff (r : TypeRegistry.t rtype) payload object :
  let decoded :=
    ∃ guts valueType,
      json_Unmarshal_map payload = inr guts
      ∧ TypeRegistry.scan_Typetags guts
          (TypeRegistry.default_Typetags (TypeRegistry.Typetags r)) ≠ EmptyString
      ∧ index_map (TypeRegistry.registry r)
          (TypeRegistry.scan_Typetags guts
             (TypeRegistry.default_Typetags (TypeRegistry.Typetags r))) = Some valueType
      ∧ json_Unmarshal_new valueType payload = inr object
      ∧ asserts_T valueType = true in
  (TypeRegistry.Unmarshal r payload = Ok object ↔ decoded)
  ∧ ((SyncTypeRegistry.Unmarshal r payload).2 = Ok object ↔ decoded).
Proof.
  intros decoded. rewrite SyncTypeRegistry_Unmarshal_result.
  enough (TypeRegistry.Unmarshal r payload = Ok object ↔ decoded) by done.
  split.
  - destruct (json_Unmarshal_map payload) as [err|guts] eqn:Hguts.
    { unfold TypeRegistry.Unmarshal. by rewrite Hguts. }
    rewrite (TypeRegistry_Unmarshal_scanned _ _ _ Hguts).
    set (objectType := TypeRegistry.scan_Typetags guts _).
    destruct (decide (objectType = EmptyString)) as [Hempty|Hne].
    { rewrite Hempty, dispatch_empty. discriminate. }
    rewrite dispatch_nonempty by done.
    destruct (index_map _ objectType) as [valueType|] eqn:Hfound; [|discriminate].
    unfold new_and_decode.
    destruct (json_Unmarshal_new valueType payload) as [err|value] eqn:Hdecode.
    { destruct (errors_Is_JSONUnmarshalError err); discriminate. }
    destruct (asserts_T valueType) eqn:Hassert; [|discriminate].
    intros [= <-]. by exists guts, valueType.
  - intros (guts & valueType & Hguts & Hne & Hfound & Hdecode & Hassert).
    rewrite (TypeRegistry_Unmarshal_scanned _ _ _ Hguts).
    rewrite dispatch_nonempty by done. rewrite Hfound.
    unfold new_and_decode. by rewrite Hdecode, Hassert.
Qed.

(** X5. Tag-mode [Unmarshal] panics in one case only: the discriminant is
    not empty and registered, the payload was decoded without error into
    the registered type, and the values of that type do not assert to
    [T]. The read of the first tag name never goes out of range, and
    with carriers that all assert to [T] there is no panic. *)
Theorem tag_Unmarshal_Panic_iff (r : TypeRegistry.t rtype) payload :
  let failed_assertion :=
    ∃ guts valueType object,
      json_Unmarshal_map payload = inr guts
      ∧ TypeRegistry.scan_Typetags guts
          (TypeRegistry.default_Typetags (TypeRegistry.Typetags r)) ≠ EmptyString
      ∧ index_map (TypeRegistry.registry r)
          (TypeRegistry.scan_Typetags guts
             (TypeRegistry.default_Typetags (TypeRegistry.Typetags r))) = Some valueType
      ∧ json_Unmarshal_new valueType payload = inr object
      ∧ asserts_T valueType = false in
  (TypeRegistry.Unmarshal r payload = Panic ↔ failed_assertion)
  ∧ ((SyncTypeRegistry.Unmarshal r payload).2 = Panic ↔ failed_assertion)
  ∧ ((∀ d valueType, index_map (TypeRegistry.registry r) d = Some valueType →
                      asserts_T valueType = true) →
     TypeRegistry.Unmarshal r payload ≠ Panic
     ∧ (SyncTypeRegistry.Unmarshal r payload).2 ≠ Panic).
Proof.
  intros failed_assertion. rewrite SyncTypeRegistry_Unmarshal_result.
  assert (TypeRegistry.Unmarshal r payload = Panic ↔ failed_assertion) as Hpanic.
  { split.
    - destruct (json_Unmarshal_map payload) as [err|guts] eqn:Hguts.
      { unfold TypeRegistry.Unmarshal. by rewrite Hguts. }
      rewrite (TypeRegistry_Unmarshal_scanned _ _ _ Hguts).
      set (objectType := TypeRegistry.scan_Typetags guts _).
      destruct (decide (objectType = EmptyString)) as [Hempty|Hne].
      { rewrite Hempty, dispatch_empty. discriminate. }
      rewrite dispatch_nonempty by done.
      destruct (index_map _ objectType) as [valueType|] eqn:Hfound; [|discriminate].
      unfold new_and_decode.
      destruct (json_Unmarshal_new valueType payload) as [err|value] eqn:Hdecode.
      { destruct (errors_Is_JSONUnmarshalError err); discriminate. }
      destruct (asserts_T valueType) eqn:Hassert; [discriminate|].
      intros _. by exists guts, valueType, value.
    - intros (guts & valueType & object & Hguts & Hne & Hfound & Hdecode & Hassert).
      rewrite (TypeRegistry_Unmarshal_scanned _ _ _ Hguts).
      rewrite dispatch_nonempty by done. rewrite Hfound.
      unfold new_and_decode. by rewrite Hdecode, Hassert. }
  split_and!; [done..|].
  intros Hall.
  enough (TypeRegistry.Unmarshal r payload ≠ Panic) by done.
  intros (guts & valueType & object & _ & _ & Hfound & _ & Hassert)%Hpanic.
  rewrite (Hall _ _ Hfound) in Hassert. discriminate.
Qed.

(** ** Tag mode: adding tag names *)

(** X6. With a tag name already configured, adding tag names that are
    not fields of the payload changes nothing in what [Unmarshal]
    returns for it. *)
Theorem AddTypeTags_absent (r : TypeRegistry.t rtype) more payload :
  TypeRegistry.Typetags r ≠ [] →
  (∀ guts tag, json_Unmarshal_map payload = inr guts → tag ∈ more → guts !! tag = None) →
  TypeRegistry.Unmarshal (TypeRegistry.AddTypeTags r more) payload
    = TypeRegistry.Unmarshal r payload
  ∧ (SyncTypeRegistry.Unmarshal (SyncTypeRegistry.AddTypeTags r more) payload).2
    = (SyncTypeRegistry.Unmarshal r payload).2
  ∧ ∀ tag, more = [tag] →
      TypeRegistry.Unmarshal (TypeRegistry.AddTypeTag r tag) payload
        = TypeRegistry.Unmarshal r payload
      ∧ (SyncTypeRegistry.Unmarshal (SyncTypeRegistry.AddTypeTag r tag) payload).2
        = (SyncTypeRegistry.Unmarshal r payload).2.
Proof.
  intros Hsome Habsent.
  assert (TypeRegistry.Unmarshal (TypeRegistry.AddTypeTags r more) payload
          = TypeRegistry.Unmarshal r payload) as Hsame.
  { destruct (json_Unmarshal_map payload) as [err|guts] eqn:Hguts.
    { unfold TypeRegistry.Unmarshal. by rewrite Hguts. }
    rewrite !(TypeRegistry_Unmarshal_parsed _ _ _ Hguts). simpl.
    destruct (TypeRegistry.Typetags r) as [|first tags] eqn:Htags; [done|].
    change (TypeRegistry.default_Typetags ((first :: tags) ++ more))
      with ((first :: tags) ++ more).
    change (TypeRegistry.default_Typetags (first :: tags)) with (first :: tags).
    rewrite last_present_app_absent by (intros tag; by apply Habsent).
    by apply dispatch_head. }
  rewrite !SyncTypeRegistry_Unmarshal_result.
  split_and!; [done..|]. intros tag ->.
  by rewrite !SyncTypeRegistry_Unmarshal_result.
Qed.

(** X7. The default tag name [type] serves only as long as no tag name
    is configured. Adding a tag name to a registry that has none leaves
    that tag name alone: a payload without it is answered with
    [ArgumentMissing] for it, whether or not the payload has a field
    [type]. *)
Theorem AddTypeTag_replaces_default (r : TypeRegistry.t rtype) tag payload guts :
  TypeRegistry.Typetags r = [] →
  json_Unmarshal_map payload = inr guts →
  guts !! tag = None →
  TypeRegistry.Typetags (TypeRegistry.AddTypeTag r tag) = [tag]
  ∧ TypeRegistry.Unmarshal (TypeRegistry.AddTypeTag r tag) payload
    = Err (JSONUnmarshalError_Wrap (ArgumentMissing tag))
  ∧ (SyncTypeRegistry.Unmarshal (SyncTypeRegistry.AddTypeTag r tag) payload).2
    = Err (JSONUnmarshalError_Wrap (ArgumentMissing tag)).
Proof.
  intros Hnone Hguts Habsent. rewrite SyncTypeRegistry_Unmarshal_result.
  assert (TypeRegistry.Typetags (TypeRegistry.AddTypeTag r tag) = [tag]) as Htags.
  { simpl. by rewrite Hnone. }
  change (SyncTypeRegistry.AddTypeTag r tag) with (TypeRegistry.AddTypeTag r tag).
  rewrite (TypeRegistry_Unmarshal_parsed _ _ _ Hguts), Htags.
  assert (TypeRegistry.last_present guts (TypeRegistry.default_Typetags [tag]) = None)
    as ->.
  { apply last_present_None. by intros t ->%list_elem_of_singleton. }
  by rewrite dispatch_empty.
Qed.

(** ** Tag mode: the thread-safe registry against the plain one *)


(** ** Tag mode: from registration to decoding *)

Lemma scan_Typetags_Trim_stable (guts : gmap string string) tags :
  strings.Trim (TypeRegistry.scan_Typetags guts tags) dquote
  = TypeRegistry.scan_Typetags guts tags.
Proof.
  rewrite scan_Typetags_last_present.
  destruct (TypeRegistry.last_present guts tags) as [[tag value]|]; [|done].
  apply Trim_stable.
Qed.

(** X9. Round trip of a discriminant. Let [class] be the last carrier of
    a batch with the discriminant [d], where [d] is not empty and has no
    double quote at either end. After [Add] of the batch, a payload whose
    last configured tag present holds [d] between double quotes is
    decoded into the type of [class]. *)
Theorem tag_round_trip (r : TypeRegistry.t rtype) (classes : list (TypeCarrier rtype))
    (class : TypeCarrier rtype) payload guts tag :
  let d := GetType class in
  last (filter (λ c, GetType c = d) classes) = Some class →
  d ≠ EmptyString →
  strings.TrimLeft d dquote = d →
  strings.TrimRight d dquote = d →
  json_Unmarshal_map payload = inr guts →
  TypeRegistry.last_present guts
    (TypeRegistry.default_Typetags (TypeRegistry.Typetags r)) = Some (tag, q d) →
  TypeRegistry.Unmarshal (TypeRegistry.Add r classes) payload
    = new_and_decode (TypeOf class) payload
  ∧ (SyncTypeRegistry.Unmarshal (SyncTypeRegistry.Add r classes) payload).2
    = new_and_decode (TypeOf class) payload.
Proof.
  intros d Hlast Hne Hleft Hright Hguts Hpresent.
  change (SyncTypeRegistry.Add r classes) with (TypeRegistry.Add r classes).
  rewrite SyncTypeRegistry_Unmarshal_result.
  enough (TypeRegistry.Unmarshal (TypeRegistry.Add r classes) payload
          = new_and_decode (TypeOf class) payload) by done.
  rewrite (TypeRegistry_Unmarshal_parsed _ _ _ Hguts). simpl.
  rewrite Hpresent, (Trim_q d Hleft Hright).
  rewrite dispatch_nonempty by done. simpl.
  rewrite foldl_add_class_lookup. fold d. by rewrite Hlast.
Qed.

(** X10. The discriminant that the scan extracts has no double quote at
    either end, so a carrier whose discriminant has one is never
    selected: registering it changes no result of [Unmarshal], except
    that the list carried by [InvalidType] has one more entry. *)
Theorem quoted_discriminant_never_selected (r : TypeRegistry.t rtype)
    (class : TypeCarrier rtype) payload :
  strings.Trim (GetType class) dquote ≠ GetType class →
  TypeRegistry.Unmarshal (TypeRegistry.Add r [class]) payload
  = match TypeRegistry.Unmarshal r payload with
    | Err (JSONUnmarshalError_Wrap (InvalidType what known)) =>
        Err (JSONUnmarshalError_Wrap (InvalidType what (known ++ [GetType class])))
    | other => other
    end.
Proof.
  intros Hquoted.
  destruct (json_Unmarshal_map payload) as [err|guts] eqn:Hguts.
  { unfold TypeRegistry.Unmarshal. by rewrite Hguts. }
  rewrite !(TypeRegistry_Unmarshal_scanned _ _ _ Hguts). simpl.
  set (tags := TypeRegistry.default_Typetags (TypeRegistry.Typetags r)).
  pose proof (scan_Typetags_Trim_stable guts tags) as Hstable.
  set (objectType := TypeRegistry.scan_Typetags guts tags) in *.
  destruct (decide (objectType = EmptyString)) as [->|Hne].
  { subst tags. by rewrite !dispatch_empty. }
  rewrite !dispatch_nonempty by done. simpl.
  assert (GetType class ≠ objectType) as Hother by congruence.
  rewrite lookup_insert_ne by done.
  destruct (TypeRegistry.registry r) as [m|]; simpl.
  - destruct (m !! objectType) as [valueType|]; [|done].
    unfold new_and_decode. destruct (json_Unmarshal_new valueType payload) as [err|v].
    + by destruct (errors_Is_JSONUnmarshalError err).
    + by destruct (asserts_T valueType).
  - by rewrite lookup_empty.
Qed.

(** X11. A registry whose [Size] is zero (fresh from its constructor, or
    the zero value with its [nil] map) decodes nothing: in tag mode every
    payload that parses gets [ArgumentMissing] or [InvalidType]; in
    property mode it gets [ArgumentMissing]. *)
Theorem empty_registry_decodes_nothing (r : TypeRegistry.t rtype)
    (pr : PropertyRegistry.t rtype) payload guts :
  TypeRegistry.Size r = 0 →
  PropertyRegistry.Size pr = 0 →
  json_Unmarshal_map payload = inr guts →
  let first := default "type" (head (TypeRegistry.Typetags r)) in
  let objectType :=
    TypeRegistry.scan_Typetags guts
      (TypeRegistry.default_Typetags (TypeRegistry.Typetags r)) in
  TypeRegistry.Unmarshal r payload
    = (if decide (objectType = EmptyString)
       then Err (JSONUnmarshalError_Wrap (ArgumentMissing first))
       else Err (JSONUnmarshalError_Wrap (InvalidType objectType (TypeRegistry.types r))))
  ∧ ∀ out, PropertyRegistry.Unmarshal pr payload out →
           out = Err (JSONUnmarshalError_Wrap
                        (ArgumentMissing (strings.Join (PropertyRegistry.types pr) ", "))).
Proof.
  intros Hsize Hpsize Hguts first objectType.
  assert (∀ V (m : option (gmap string V)) k, len_map m = 0 → index_map m k = None)
    as Hempty.
  { intros V [m|] k; simpl; [|done]. intros ->%map_size_empty_iff. apply lookup_empty. }
  split.
  - rewrite (TypeRegistry_Unmarshal_scanned _ _ _ Hguts). fold objectType.
    destruct (decide (objectType = EmptyString)) as [->|Hne].
    + apply dispatch_empty.
    + rewrite dispatch_nonempty by done. by rewrite Hempty.
  - intros out [err Herr|guts' order Hguts' Horder]; [congruence|].
    apply range_guts_no_match. intros k _. by apply Hempty.
Qed.

(** ** The generic helper *)


End tag_mode.

Section property_mode.
Context {rtype instance jerror : Type} `{!JSON rtype instance jerror}.

(** ** Property mode: every result of [Unmarshal] *)

(** Every field of the payload can be the one the loop visits first. *)
Lemma range_order_first {V} (m : gmap string V) k :
  is_Some (m !! k) → ∃ rest, range_order m (k :: rest).
Proof.
  intros Hk. apply (range_order_elem_of m _ k (range_order_keys m)) in Hk.
  apply elem_of_Permutation in Hk as [rest Hrest]. exists rest.
  unfold range_order. by rewrite Hrest.
Qed.

(** X13. What property-mode [Unmarshal] can return for a payload that
    parses: [ArgumentMissing] when no field name is a registered
    discriminant, and otherwise the decoding of the value of any field
    whose name is one, each of them being a possible result. For a
    payload that does not parse it returns the wrapped parse error. *)
Theorem property_Unmarshal_results (r : PropertyRegistry.t rtype) payload out :
  (∀ guts, json_Unmarshal_map payload = inr guts →
     PropertyRegistry.Unmarshal r payload out ↔
       (out = Err (JSONUnmarshalError_Wrap
                     (ArgumentMissing (strings.Join (PropertyRegistry.types r) ", ")))
        ∧ ∀ k, is_Some (guts !! k) → index_map (PropertyRegistry.registry r) k = None)
       ∨ ∃ k valueType value,
           guts !! k = Some value
           ∧ index_map (PropertyRegistry.registry r) k = Some valueType
           ∧ out = new_and_decode valueType value)
  ∧ (∀ err, json_Unmarshal_map payload = inl err →
       PropertyRegistry.Unmarshal r payload out ↔
         out = Err (JSONUnmarshalError_Wrap (FromJSON err))).
Proof.
  split.
  - intros guts Hguts. split.
    + intros [err Herr|guts' order Hguts' Horder]; [congruence|].
      assert (guts' = guts) as -> by congruence.
      destruct (range_guts_cases (PropertyRegistry.registry r)
                  (PropertyRegistry.types r) guts order)
        as [[-> Hnone]|(k & valueType & value & Hin & Hreg & Hvalue & ->)].
      * intros k Hin. by apply (range_order_elem_of guts order).
      * left. split; [done|]. intros k Hk. apply Hnone.
        by apply (range_order_elem_of guts order).
      * right. by exists k, valueType, value.
    + intros [[-> Hnone]|(k & valueType & value & Hvalue & Hreg & ->)].
      * apply (PropertyRegistry_Unmarshal_along r payload guts (map_to_list guts).*1);
          [done | apply range_order_keys |].
        apply range_guts_no_match. intros k Hin. apply Hnone.
        by apply (range_order_elem_of guts _ k (range_order_keys guts)).
      * destruct (range_order_first guts k) as [rest Horder]; [by eexists|].
        apply (PropertyRegistry_Unmarshal_along r payload guts (k :: rest)); [done..|].
        simpl. by rewrite Hreg, Hvalue.
  - intros err Herr. split.
    + intros [err' Herr'|guts order Hguts Horder]; congruence.
    + intros ->. by constructor.
Qed.

(** X14. [SyncPropertyRegistry.Unmarshal] returns the results of
    [PropertyRegistry.Unmarshal] and leaves the registry it is called on
    as it was; for every payload there is a result. *)
Theorem SyncPropertyRegistry_Unmarshal_agrees (r : PropertyRegistry.t rtype) payload :
  (∀ out, PropertyRegistry.Unmarshal r payload out
          ↔ SyncPropertyRegistry.Unmarshal r payload (r, out))
  ∧ (∀ after out, SyncPropertyRegistry.Unmarshal r payload (after, out) → after = r)
  ∧ ∃ out, PropertyRegistry.Unmarshal r payload out.
Proof.
  split_and!.
  - intros out. rewrite SyncPropertyRegistry_Unmarshal_iff. simpl. tauto.
  - intros after out Hrun. by apply SyncPropertyRegistry_Unmarshal_frame in Hrun.
  - destruct (json_Unmarshal_map payload) as [err|guts] eqn:Hguts.
    + eexists. by apply PropertyRegistry.Unmarshal_malformed.
    + eexists. apply (PropertyRegistry.Unmarshal_range r payload guts (map_to_list guts).*1);
        [done | apply range_order_keys].
Qed.


End property_mode.

(** ** The carriers of the test suite *)

Section carriers.
#[local] Existing Instance common_test.json.
Import common_test.


End carriers.

(** * Further scenarios *)

Section further_scenarios.
#[local] Existing Instance common_test.json.
Import common_test.

Ltac evaluate := vm_compute; reflexivity.

Lemma property_registry_reachable : PropertyRegistry_reachable property_registry.
Proof. do 2 apply property_reachable_Add. apply property_reachable_New. Defined.

Lemma Size_counts_distinct_witness :
  TypeRegistry.Size (TypeRegistry.Add (type_registry []) [something1]) = 2
  ∧ length (TypeRegistry.types (TypeRegistry.Add (type_registry []) [something1])) = 3
  ∧ PropertyRegistry.Size property_registry = 2.
Proof.
  destruct (Size_counts_distinct (TypeRegistry.Add (type_registry []) [something1])
              property_registry) as ((Hsize & _) & (Hpsize & _)).
  - apply TypeRegistry.reachable_Add, type_registry_reachable.
  - apply property_registry_reachable.
  - split_and!; [rewrite Hsize; evaluate | evaluate | rewrite Hpsize; evaluate].
Defined.

Lemma AddTypeTags_absent_witness :
  TypeRegistry.Unmarshal
    (TypeRegistry.AddTypeTags (type_registry ["__type"]) ["kind"; "class"]) payload_typetag
  = Ok (ptr_Something1 "data").
Proof.
  destruct (AddTypeTags_absent (type_registry ["__type"]) ["kind"; "class"] payload_typetag)
    as (-> & _).
  - discriminate.
  - intros guts tag Hguts Hin.
    assert (guts = guts_of payload_typetag) as ->.
    { assert (json_Unmarshal_map payload_typetag = inr (guts_of payload_typetag))
        as Hparse by evaluate.
      congruence. }
    apply elem_of_cons in Hin as [->|Hin]; [evaluate|].
    apply list_elem_of_singleton in Hin as ->. evaluate.
  - evaluate.
Defined.

Lemma AddTypeTag_replaces_default_witness :
  TypeRegistry.Unmarshal (type_registry []) payload_something1 = Ok (ptr_Something1 "data")
  ∧ TypeRegistry.Unmarshal (TypeRegistry.AddTypeTag (type_registry []) "__type")
      payload_something1
    = Err (JSONUnmarshalError_Wrap (ArgumentMissing "__type")).
Proof.
  split; [evaluate|].
  apply (AddTypeTag_replaces_default (type_registry []) "__type" payload_something1
           (guts_of payload_something1)); evaluate.
Defined.

Lemma tag_round_trip_witness :
  TypeRegistry.Unmarshal
    (TypeRegistry.Add (TypeRegistry.NewTypeRegistry []) [something1; something2])
    payload_something1
  = Ok (ptr_Something1 "data").
Proof.
  destruct (tag_round_trip (TypeRegistry.NewTypeRegistry []) [something1; something2]
              something1 payload_something1 (guts_of payload_something1) "type")
    as [-> _]; [evaluate | vm_compute; discriminate | evaluate..|].
  evaluate.
Defined.

Lemma quoted_discriminant_never_selected_witness :
  TypeRegistry.Unmarshal
    (TypeRegistry.Add (type_registry [])
       [{| GetType := q "something3"; TypeOf := Something2 |}])
    payload_something3
  = Err (JSONUnmarshalError_Wrap
           (InvalidType "something3" ["something1"; "something2"; q "something3"])).
Proof.
  rewrite (quoted_discriminant_never_selected (type_registry [])
             {| GetType := q "something3"; TypeOf := Something2 |} payload_something3).
  - evaluate.
  - vm_compute. discriminate.
Defined.

Lemma empty_registry_decodes_nothing_witness :
  TypeRegistry.Unmarshal TypeRegistry.zero payload_something1
  = Err (JSONUnmarshalError_Wrap (InvalidType "something1" [])).
Proof.
  destruct (empty_registry_decodes_nothing TypeRegistry.zero
              (PropertyRegistry.NewPropertyRegistry ["type"]) payload_something1
              (guts_of payload_something1)) as [-> _]; evaluate.
Defined.



End further_scenarios.
